(** * pyarch: the CPU execution engine of [pyarch/cpu.py]

    A shallow embedding of class [CPU]: the register file, the trap and
    interrupt controller, the arithmetic / logic / memory / branch operations,
    the instruction table and [decode_next_instr], followed by the theorems
    that settle the properties stated about them.

    Python integers are unbounded, so register values are [Z]; [%] and [//]
    are floor operations whose result takes the sign of the divisor, which
    is exactly [Z.modulo] and [Z.div]; [&], [|], [^], [~], [>>] and [<<] on
    Python integers are the two's complement operations of [Z], [<<] up to
    the largest integer the interpreter holds (see [py_shl]).

    The methods mutate the CPU object and may raise; they are embedded in a
    state-and-exception monad over the record [CPU].  Locks, [sleep(0)] and
    the [print] calls have no effect on the state of a single thread of
    execution and are left out. *)

From Stdlib Require Import ZArith Lia Bool List.
From stdpp Require Import base list.
From coqutil Require Import Z.bitblast.
Import ListNotations.

Local Open Scope Z_scope.

(** ** Machine state *)

Record CPU : Type := mkCPU {
  memory : list Z;
  registers : list Z;
  intr_event : bool;
  intr_mask : bool;
  intr_pending : bool
}.

(** What ends a method call other than a normal return: the Python
    exceptions the engine can raise, the [SystemExit] of [quit()], and
    [Blocked] for a thread suspended in [Event.wait()]. [RecursionError]
    is what the interpreter raises when calls nest too deeply,
    [OverflowError] what it raises for an integer with more digits than an
    integer object can have. *)
Inductive exn : Type :=
  | IndexError
  | ValueError
  | TypeError
  | SystemExit
  | RecursionError
  | OverflowError
  | Blocked.

Inductive result (A : Type) : Type :=
  | Ok (a : A) (s : CPU)
  | Raise (e : exn).

Arguments Ok {A} a s.
Arguments Raise {A} e.

Definition M (A : Type) : Type := CPU -> result A.

Definition pure {A} (a : A) : M A := fun s => Ok a s.

Definition bind {A B} (m : M A) (k : A -> M B) : M B :=
  fun s => match m s with
           | Ok a s' => k a s'
           | Raise e => Raise e
           end.

Definition raise {A} (e : exn) : M A := fun _ => Raise e.

Notation "x <- m ;; k" := (bind m (fun x => k))
  (at level 100, m at next level, right associativity).
Notation "m ;; k" := (bind m (fun _ => k))
  (at level 100, right associativity).

(** ** Constants of the class *)

Definition MINVAL : Z := - (2 ^ 32).
Definition MAXVAL : Z := 2 ^ 32 - 1.

Definition REG_PC : Z := 0x0.
Definition REG_SP : Z := 0x1.
Definition REG_RES : Z := 0x2.
Definition REG_CARRY : Z := 0x3.
Definition REG_RET : Z := 0x4.
Definition REG_TRAP : Z := 0x5.
Definition REG_RESVD : Z := 0x20.

Definition TRAP_INTR : Z := 0x10.
Definition TRAP_ILL : Z := 0x20.
Definition TRAP_DIV : Z := 0x30.
Definition TRAP_DTRAP : Z := 0x40.

(** [CPU.__init__]: 33 registers, all zero, interrupts neither masked nor
    pending. *)
Definition init (mem : list Z) : CPU :=
  mkCPU mem (replicate (Z.to_nat (REG_RESVD + 1)) 0) false false false.

(** ** Indexing *)

(** Position denoted by index [i] in a Python list of length [len]:
    negative indices count from the end, anything else out of range raises
    [IndexError]. *)
Definition py_index (len : nat) (i : Z) : option nat :=
  if (0 <=? i) && (i <? Z.of_nat len) then Some (Z.to_nat i)
  else if (- Z.of_nat len <=? i) && (i <? 0)
       then Some (Z.to_nat (Z.of_nat len + i))
  else None.

(** [self.registers[i]] *)
Definition get_reg (i : Z) : M Z := fun s =>
  match py_index (length (registers s)) i with
  | Some n => match registers s !! n with
              | Some v => Ok v s
              | None => Raise IndexError
              end
  | None => Raise IndexError
  end.

(** [self.registers[i] = v] *)
Definition set_reg (i v : Z) : M unit := fun s =>
  match py_index (length (registers s)) i with
  | Some n => Ok tt (mkCPU (memory s) (<[n := v]> (registers s))
                           (intr_event s) (intr_mask s) (intr_pending s))
  | None => Raise IndexError
  end.

(** Modelled from the spec: the memory object handed to [CPU.__init__] is
    not defined in the source; the spec describes a contiguous sequence of
    bytes whose length is fixed at construction, read and written as
    [mem[i]]. The source indexes it with [self.memory[a]] and checks
    nothing first, so an index is taken as Python's sequences (a list, a
    bytearray) take it, like an index into the register list: an index in
    [[-len, 0)] counts from the end, and one outside [[-len, len)] raises
    [IndexError]. *)
Definition mem_index (len : nat) (a : Z) : option nat := py_index len a.

(** [self.memory[a]] *)
Definition mem_get (a : Z) : M Z := fun s =>
  match mem_index (length (memory s)) a with
  | Some n => match memory s !! n with
              | Some v => Ok v s
              | None => Raise IndexError
              end
  | None => Raise IndexError
  end.

(** [self.memory[a] = v] *)
Definition mem_set (a v : Z) : M unit := fun s =>
  match mem_index (length (memory s)) a with
  | Some n => Ok tt (mkCPU (<[n := v]> (memory s)) (registers s)
                           (intr_event s) (intr_mask s) (intr_pending s))
  | None => Raise IndexError
  end.

Definition get_intr_event : M bool := fun s => Ok (intr_event s) s.
Definition get_intr_mask : M bool := fun s => Ok (intr_mask s) s.
Definition get_intr_pending : M bool := fun s => Ok (intr_pending s) s.

Definition set_intr_event (b : bool) : M unit := fun s =>
  Ok tt (mkCPU (memory s) (registers s) b (intr_mask s) (intr_pending s)).
Definition set_intr_mask (b : bool) : M unit := fun s =>
  Ok tt (mkCPU (memory s) (registers s) (intr_event s) b (intr_pending s)).
Definition set_intr_pending (b : bool) : M unit := fun s =>
  Ok tt (mkCPU (memory s) (registers s) (intr_event s) (intr_mask s) b).

(** [int(b)] *)
Definition int_of_bool (b : bool) : Z := if b then 1 else 0.

(** ** Trap and interrupt controller *)

Definition dsi : M unit := set_intr_mask true.

(** [jmp], with the [trap] it calls on a negative address as a parameter:
    [trap] and [jmp] call each other. *)
Definition jmp_with (trap : Z -> M unit) (addr : Z) : M unit :=
  if addr <? 0 then trap TRAP_ILL
  else set_reg REG_PC addr.

(** [trap], with the nesting depth still allowed for its calls. *)
Fixpoint trap_rec (depth : nat) (addr : Z) : M unit :=
  match depth with
  | O => raise RecursionError
  | S d =>
      set_intr_event true ;;
      dsi ;;
      t <- get_reg REG_TRAP ;;
      if negb (t =? 0) && negb (addr =? TRAP_DTRAP) then
        trap_rec d TRAP_DTRAP
      else
        set_reg REG_TRAP 1 ;;
        pc <- get_reg REG_PC ;;
        set_reg REG_RET pc ;;
        jmp_with (trap_rec d) addr ;;
        set_intr_event false
  end.

(** A trap nests at most three deep: a negative vector sends [jmp] to
    [trap(TRAP_ILL)], which escalates to [trap(TRAP_DTRAP)], which jumps
    (see [trap_rec_depth]). *)
Definition trap (addr : Z) : M unit := trap_rec 3 addr.

Definition jmp (addr : Z) : M unit := jmp_with trap addr.

Definition intr : M unit :=
  m <- get_intr_mask ;;
  if m then set_intr_pending true
  else set_intr_pending false ;; trap TRAP_INTR.

Definition eni : M unit :=
  set_intr_mask false ;;
  p <- get_intr_pending ;;
  if p then intr else pure tt.

Definition ret : M unit :=
  set_reg REG_TRAP 0 ;;
  v <- get_reg REG_RET ;;
  set_reg REG_PC v ;;
  eni.

Definition wait : M unit :=
  e <- get_intr_event ;;
  if e then pure tt else raise Blocked.

Definition nop : M unit := pure tt.

(** [halt] prints, stops the registered threads and calls [quit()]. *)
Definition halt : M unit := raise SystemExit.

(** ** Branches *)

Definition jmpeq (reg1 reg2 addr : Z) : M unit :=
  a <- get_reg reg1 ;; b <- get_reg reg2 ;;
  if a =? b then jmp addr else pure tt.

Definition jmpeqi (reg1 val addr : Z) : M unit :=
  set_reg REG_RESVD val ;; jmpeq reg1 REG_RESVD addr.

Definition jmpne (reg1 reg2 addr : Z) : M unit :=
  a <- get_reg reg1 ;; b <- get_reg reg2 ;;
  if negb (a =? b) then jmp addr else pure tt.

Definition jmpnei (reg1 val addr : Z) : M unit :=
  set_reg REG_RESVD val ;; jmpne reg1 REG_RESVD addr.

Definition jmpgt (reg1 reg2 addr : Z) : M unit :=
  a <- get_reg reg1 ;; b <- get_reg reg2 ;;
  if a >? b then jmp addr else pure tt.

Definition jmpgti (reg1 val addr : Z) : M unit :=
  set_reg REG_RESVD val ;; jmpgt reg1 REG_RESVD addr.

Definition jmpge (reg1 reg2 addr : Z) : M unit :=
  a <- get_reg reg1 ;; b <- get_reg reg2 ;;
  if a >=? b then jmp addr else pure tt.

Definition jmpgei (reg1 val addr : Z) : M unit :=
  set_reg REG_RESVD val ;; jmpge reg1 REG_RESVD addr.

Definition jmplt (reg1 reg2 addr : Z) : M unit :=
  a <- get_reg reg1 ;; b <- get_reg reg2 ;;
  if a <? b then jmp addr else pure tt.

Definition jmplti (reg1 val addr : Z) : M unit :=
  set_reg REG_RESVD val ;; jmplt reg1 REG_RESVD addr.

Definition jmple (reg1 reg2 addr : Z) : M unit :=
  a <- get_reg reg1 ;; b <- get_reg reg2 ;;
  if a <=? b then jmp addr else pure tt.

Definition jmplei (reg1 val addr : Z) : M unit :=
  set_reg REG_RESVD val ;; jmple reg1 REG_RESVD addr.

(** ** Arithmetic *)

Definition add (reg1 reg2 reg3 : Z) : M unit :=
  a <- get_reg reg1 ;; b <- get_reg reg2 ;;
  let result := a + b in
  set_reg reg3 (result mod MAXVAL) ;;
  set_reg REG_CARRY (int_of_bool (result >? MAXVAL)).

Definition addi (reg1 val reg2 : Z) : M unit :=
  set_reg REG_RESVD val ;; add reg1 REG_RESVD reg2.

Definition sub (reg1 reg2 reg3 : Z) : M unit :=
  a <- get_reg reg1 ;; b <- get_reg reg2 ;;
  let result := a - b in
  set_reg reg3 (result mod MINVAL) ;;
  set_reg REG_CARRY (int_of_bool (result <? MINVAL)).

Definition subi (reg1 val reg2 : Z) : M unit :=
  set_reg REG_RESVD val ;; sub reg1 REG_RESVD reg2.

Definition mul (reg1 reg2 reg3 : Z) : M unit :=
  a <- get_reg reg1 ;; b <- get_reg reg2 ;;
  let result := a * b in
  set_reg reg3 (result mod MAXVAL) ;;
  set_reg REG_CARRY (int_of_bool (result >? MAXVAL)).

Definition muli (reg1 val reg2 : Z) : M unit :=
  set_reg REG_RESVD val ;; mul reg1 REG_RESVD reg2.

Definition div (reg1 reg2 reg3 : Z) : M unit :=
  d <- get_reg reg2 ;;
  if d =? 0 then trap TRAP_DIV
  else
    a <- get_reg reg1 ;; b <- get_reg reg2 ;;
    let result := a / b in
    set_reg reg3 result ;;
    set_reg REG_CARRY 0.

Definition divi (reg1 val reg2 : Z) : M unit :=
  set_reg REG_RESVD val ;; div reg1 REG_RESVD reg2.

(** ** Loads and stores *)

Definition loadw (reg1 addr : Z) : M unit :=
  if addr + 3 >? MAXVAL then trap TRAP_ILL
  else
    b0 <- mem_get addr ;;
    set_reg reg1 (Z.shiftl b0 24) ;;
    r <- get_reg reg1 ;; b1 <- mem_get (addr + 1) ;;
    set_reg reg1 (Z.lor r (Z.shiftl b1 16)) ;;
    r <- get_reg reg1 ;; b2 <- mem_get (addr + 2) ;;
    set_reg reg1 (Z.lor r (Z.shiftl b2 8)) ;;
    r <- get_reg reg1 ;; b3 <- mem_get (addr + 3) ;;
    set_reg reg1 (Z.lor r b3).

Definition loadwr (reg1 reg2 : Z) : M unit :=
  a <- get_reg reg2 ;; loadw reg1 a.

Definition loadwi (reg1 val : Z) : M unit := set_reg reg1 val.

Definition savew (reg1 addr : Z) : M unit :=
  if addr + 3 >? MAXVAL then trap TRAP_ILL
  else
    r <- get_reg reg1 ;; mem_set addr (Z.land (Z.shiftr r 24) 0xff) ;;
    r <- get_reg reg1 ;; mem_set (addr + 1) (Z.land (Z.shiftr r 16) 0xff) ;;
    r <- get_reg reg1 ;; mem_set (addr + 2) (Z.land (Z.shiftr r 8) 0xff) ;;
    r <- get_reg reg1 ;; mem_set (addr + 3) (Z.land r 0xff).

Definition savewr (reg1 reg2 : Z) : M unit :=
  a <- get_reg reg2 ;; savew reg1 a.

Definition savewi (val addr : Z) : M unit :=
  set_reg REG_RESVD val ;; savew REG_RESVD addr.

Definition loadb (reg1 addr : Z) : M unit :=
  b <- mem_get addr ;; set_reg reg1 b.

Definition loadbr (reg1 reg2 : Z) : M unit :=
  a <- get_reg reg2 ;; loadb reg1 a.

Definition loadbi (reg1 val : Z) : M unit := set_reg reg1 (Z.land val 0xff).

Definition saveb (reg1 addr : Z) : M unit :=
  r <- get_reg reg1 ;; mem_set addr (Z.land r 0xff).

Definition savebr (reg1 reg2 : Z) : M unit :=
  a <- get_reg reg2 ;; saveb reg1 a.

Definition savebi (val addr : Z) : M unit :=
  set_reg REG_RESVD val ;; saveb REG_RESVD addr.

(** ** Register moves, logic and shifts *)

Definition swap (reg1 reg2 : Z) : M unit :=
  temp <- get_reg reg1 ;;
  set_reg reg1 reg2 ;;
  set_reg reg2 temp.

Definition copy (reg1 reg2 : Z) : M unit :=
  v <- get_reg reg2 ;; set_reg reg1 v.

Definition and_ (reg1 reg2 reg3 : Z) : M unit :=
  a <- get_reg reg1 ;; b <- get_reg reg2 ;; set_reg reg3 (Z.land a b).

Definition andi (reg1 val reg2 : Z) : M unit :=
  a <- get_reg reg1 ;; set_reg reg2 (Z.land a val).

Definition or_ (reg1 reg2 reg3 : Z) : M unit :=
  a <- get_reg reg1 ;; b <- get_reg reg2 ;; set_reg reg3 (Z.lor a b).

Definition ori (reg1 val reg2 : Z) : M unit :=
  a <- get_reg reg1 ;; set_reg reg2 (Z.lor a val).

Definition xor_ (reg1 reg2 reg3 : Z) : M unit :=
  a <- get_reg reg1 ;; b <- get_reg reg2 ;; set_reg reg3 (Z.lxor a b).

Definition xori (reg1 val reg2 : Z) : M unit :=
  a <- get_reg reg1 ;; set_reg reg2 (Z.lxor a val).

Definition not_ (reg1 reg2 : Z) : M unit :=
  a <- get_reg reg1 ;; set_reg reg2 (Z.lnot a).

(** The number of 30-bit digits in which CPython stores a nonzero
    integer [a] *)
Definition int_digits (a : Z) : Z := Z.log2 (Z.abs a) / 30 + 1.

(** The most digits an integer object can have (CPython on a 64-bit
    platform: the size of the object has to fit a signed 64-bit count of
    bytes, 24 of them taken by its header and 4 by each digit). *)
Definition MAX_LONG_DIGITS : Z := (2 ^ 63 - 1 - 24) / 4.

(** The digits CPython allocates for [a << n], [a] nonzero: those of [a],
    one for each 30 bits of the count, one more for the bits left over. *)
Definition shl_digits (a n : Z) : Z :=
  int_digits a + n / 30 + (if n mod 30 =? 0 then 0 else 1).

(** [a << n] and [a >> n]. Python raises [ValueError] on a negative shift
    count. A right shift never grows its operand. A left shift of zero is
    zero whatever the count; of another value it is refused with
    [OverflowError] when the result would need more than
    [MAX_LONG_DIGITS] digits (a count near [2^66] and above). Below that
    limit the result is returned as the interpreter returns it when it can
    allocate it: a result larger than the memory of the machine ends in
    [MemoryError] instead, which depends on the machine and is not part
    of this model, so the theorems that state the result of a left shift
    bound its count by [MAXVAL]. *)
Definition py_shl (a n : Z) : M Z :=
  if n <? 0 then raise ValueError
  else if a =? 0 then pure 0
  else if shl_digits a n >? MAX_LONG_DIGITS then raise OverflowError
  else pure (Z.shiftl a n).

Definition py_shr (a n : Z) : M Z :=
  if n <? 0 then raise ValueError else pure (Z.shiftr a n).

Definition shl (reg1 reg2 reg3 : Z) : M unit :=
  a <- get_reg reg1 ;; n <- get_reg reg2 ;;
  v <- py_shl a n ;; set_reg reg3 v.

Definition shli (reg1 val reg2 : Z) : M unit :=
  a <- get_reg reg1 ;; v <- py_shl a val ;; set_reg reg2 v.

Definition shr (reg1 reg2 reg3 : Z) : M unit :=
  a <- get_reg reg1 ;; n <- get_reg reg2 ;;
  v <- py_shr a n ;; set_reg reg3 v.

Definition shri (reg1 val reg2 : Z) : M unit :=
  a <- get_reg reg1 ;; v <- py_shr a val ;; set_reg reg2 v.

(** ** Instruction table and decoder *)

(** Instruction parameter types *)
Inductive arg_type : Type := IA_NONE | IA_IMMED | IA_ADDR | IA_REG.

(** The methods listed in [INSTRS]. *)
Inductive instr_fn : Type :=
  | F_nop | F_savew | F_savewr | F_savewi | F_loadw | F_loadwr | F_loadwi
  | F_saveb | F_savebr | F_savebi | F_loadb | F_loadbr | F_loadbi
  | F_add | F_sub | F_mul | F_div | F_addi | F_subi | F_muli | F_divi
  | F_jmp | F_jmpeq | F_jmpne | F_jmplt | F_jmpgt | F_jmple | F_jmpge
  | F_jmpeqi | F_jmpnei | F_jmplti | F_jmpgti | F_jmplei | F_jmpgei
  | F_halt | F_intr | F_ret | F_eni | F_dsi | F_wait
  | F_swap | F_copy | F_and | F_or | F_xor | F_andi | F_ori | F_xori
  | F_not | F_shl | F_shr | F_shli | F_shri.

Definition INSTRS : list ((arg_type * arg_type * arg_type) * instr_fn) :=
  [ ((IA_NONE,  IA_NONE,  IA_NONE),  F_nop);      (* 0x0 *)
    ((IA_REG,   IA_ADDR,  IA_NONE),  F_savew);    (* 0x1 *)
    ((IA_REG,   IA_REG,   IA_NONE),  F_savewr);   (* 0x2 *)
    ((IA_IMMED, IA_ADDR,  IA_NONE),  F_savewi);   (* 0x3 *)
    ((IA_REG,   IA_ADDR,  IA_NONE),  F_loadw);    (* 0x4 *)
    ((IA_REG,   IA_REG,   IA_NONE),  F_loadwr);   (* 0x5 *)
    ((IA_REG,   IA_IMMED, IA_NONE),  F_loadwi);   (* 0x6 *)
    ((IA_REG,   IA_ADDR,  IA_NONE),  F_saveb);    (* 0x7 *)
    ((IA_REG,   IA_REG,   IA_NONE),  F_savebr);   (* 0x8 *)
    ((IA_IMMED, IA_ADDR,  IA_NONE),  F_savebi);   (* 0x9 *)
    ((IA_REG,   IA_ADDR,  IA_NONE),  F_loadb);    (* 0xa *)
    ((IA_REG,   IA_REG,   IA_NONE),  F_loadbr);   (* 0xb *)
    ((IA_REG,   IA_IMMED, IA_NONE),  F_loadbi);   (* 0xc *)
    ((IA_REG,   IA_REG,   IA_REG),   F_add);      (* 0xd *)
    ((IA_REG,   IA_REG,   IA_REG),   F_sub);      (* 0xe *)
    ((IA_REG,   IA_REG,   IA_REG),   F_mul);      (* 0xf *)
    ((IA_REG,   IA_REG,   IA_REG),   F_div);      (* 0x10 *)
    ((IA_REG,   IA_IMMED, IA_REG),   F_addi);     (* 0x11 *)
    ((IA_REG,   IA_IMMED, IA_REG),   F_subi);     (* 0x12 *)
    ((IA_REG,   IA_IMMED, IA_REG),   F_muli);     (* 0x13 *)
    ((IA_REG,   IA_IMMED, IA_REG),   F_divi);     (* 0x14 *)
    ((IA_ADDR,  IA_NONE,  IA_NONE),  F_jmp);      (* 0x15 *)
    ((IA_REG,   IA_REG,   IA_ADDR),  F_jmpeq);    (* 0x16 *)
    ((IA_REG,   IA_REG,   IA_ADDR),  F_jmpne);    (* 0x17 *)
    ((IA_REG,   IA_REG,   IA_ADDR),  F_jmplt);    (* 0x18 *)
    ((IA_REG,   IA_REG,   IA_ADDR),  F_jmpgt);    (* 0x19 *)
    ((IA_REG,   IA_REG,   IA_ADDR),  F_jmple);    (* 0x1a *)
    ((IA_REG,   IA_REG,   IA_ADDR),  F_jmpge);    (* 0x1b *)
    ((IA_REG,   IA_IMMED, IA_ADDR),  F_jmpeqi);   (* 0x1c *)
    ((IA_REG,   IA_IMMED, IA_ADDR),  F_jmpnei);   (* 0x1d *)
    ((IA_REG,   IA_IMMED, IA_ADDR),  F_jmplti);   (* 0x1e *)
    ((IA_REG,   IA_IMMED, IA_ADDR),  F_jmpgti);   (* 0x1f *)
    ((IA_REG,   IA_IMMED, IA_ADDR),  F_jmplei);   (* 0x20 *)
    ((IA_REG,   IA_IMMED, IA_ADDR),  F_jmpgei);   (* 0x21 *)
    ((IA_NONE,  IA_NONE,  IA_NONE),  F_halt);     (* 0x22 *)
    ((IA_NONE,  IA_NONE,  IA_NONE),  F_intr);     (* 0x23 *)
    ((IA_NONE,  IA_NONE,  IA_NONE),  F_ret);      (* 0x24 *)
    ((IA_NONE,  IA_NONE,  IA_NONE),  F_eni);      (* 0x25 *)
    ((IA_NONE,  IA_NONE,  IA_NONE),  F_dsi);      (* 0x26 *)
    ((IA_NONE,  IA_NONE,  IA_NONE),  F_wait);     (* 0x27 *)
    ((IA_REG,   IA_REG,   IA_NONE),  F_swap);     (* 0x28 *)
    ((IA_REG,   IA_REG,   IA_NONE),  F_copy);     (* 0x29 *)
    ((IA_REG,   IA_REG,   IA_REG),   F_and);      (* 0x2a *)
    ((IA_REG,   IA_REG,   IA_REG),   F_or);       (* 0x2b *)
    ((IA_REG,   IA_REG,   IA_REG),   F_xor);      (* 0x2c *)
    ((IA_REG,   IA_IMMED, IA_REG),   F_andi);     (* 0x2d *)
    ((IA_REG,   IA_IMMED, IA_REG),   F_ori);      (* 0x2e *)
    ((IA_REG,   IA_IMMED, IA_REG),   F_xori);     (* 0x2f *)
    ((IA_REG,   IA_REG,   IA_NONE),  F_not);      (* 0x30 *)
    ((IA_REG,   IA_REG,   IA_REG),   F_shl);      (* 0x31 *)
    ((IA_REG,   IA_REG,   IA_REG),   F_shr);      (* 0x32 *)
    ((IA_REG,   IA_IMMED, IA_REG),   F_shli);     (* 0x33 *)
    ((IA_REG,   IA_IMMED, IA_REG),   F_shri)      (* 0x34 *)
  ].

(** [instr_fn(self, *arglist)]: a call with the wrong number of arguments
    is a [TypeError]. *)
Definition call (f : instr_fn) (arglist : list Z) : M unit :=
  match f, arglist with
  | F_nop, [] => nop
  | F_savew, [a; b] => savew a b
  | F_savewr, [a; b] => savewr a b
  | F_savewi, [a; b] => savewi a b
  | F_loadw, [a; b] => loadw a b
  | F_loadwr, [a; b] => loadwr a b
  | F_loadwi, [a; b] => loadwi a b
  | F_saveb, [a; b] => saveb a b
  | F_savebr, [a; b] => savebr a b
  | F_savebi, [a; b] => savebi a b
  | F_loadb, [a; b] => loadb a b
  | F_loadbr, [a; b] => loadbr a b
  | F_loadbi, [a; b] => loadbi a b
  | F_add, [a; b; c] => add a b c
  | F_sub, [a; b; c] => sub a b c
  | F_mul, [a; b; c] => mul a b c
  | F_div, [a; b; c] => div a b c
  | F_addi, [a; b; c] => addi a b c
  | F_subi, [a; b; c] => subi a b c
  | F_muli, [a; b; c] => muli a b c
  | F_divi, [a; b; c] => divi a b c
  | F_jmp, [a] => jmp a
  | F_jmpeq, [a; b; c] => jmpeq a b c
  | F_jmpne, [a; b; c] => jmpne a b c
  | F_jmplt, [a; b; c] => jmplt a b c
  | F_jmpgt, [a; b; c] => jmpgt a b c
  | F_jmple, [a; b; c] => jmple a b c
  | F_jmpge, [a; b; c] => jmpge a b c
  | F_jmpeqi, [a; b; c] => jmpeqi a b c
  | F_jmpnei, [a; b; c] => jmpnei a b c
  | F_jmplti, [a; b; c] => jmplti a b c
  | F_jmpgti, [a; b; c] => jmpgti a b c
  | F_jmplei, [a; b; c] => jmplei a b c
  | F_jmpgei, [a; b; c] => jmpgei a b c
  | F_halt, [] => halt
  | F_intr, [] => intr
  | F_ret, [] => ret
  | F_eni, [] => eni
  | F_dsi, [] => dsi
  | F_wait, [] => wait
  | F_swap, [a; b] => swap a b
  | F_copy, [a; b] => copy a b
  | F_and, [a; b; c] => and_ a b c
  | F_or, [a; b; c] => or_ a b c
  | F_xor, [a; b; c] => xor_ a b c
  | F_andi, [a; b; c] => andi a b c
  | F_ori, [a; b; c] => ori a b c
  | F_xori, [a; b; c] => xori a b c
  | F_not, [a; b] => not_ a b
  | F_shl, [a; b; c] => shl a b c
  | F_shr, [a; b; c] => shr a b c
  | F_shli, [a; b; c] => shli a b c
  | F_shri, [a; b; c] => shri a b c
  | _, _ => raise TypeError
  end.

(** The loop over [zip(instr_type, (op1, op2, op3))]: [None] when a register
    argument is refused, otherwise the argument list built so far. *)
Fixpoint check_args (l : list (arg_type * Z)) (arglist : list Z)
  : option (list Z) :=
  match l with
  | [] => Some arglist
  | (argtype, arg) :: l' =>
      match argtype with
      | IA_NONE => check_args l' arglist
      | IA_REG =>
          if arg >? REG_RESVD then None
          else check_args l' (arglist ++ [arg])
      | _ => check_args l' (arglist ++ [arg])
      end
  end.

(** One of the four word reads at the head of [decode_next_instr]:
    [loadw] into the scratch register, copy it out, [PC += 4]. *)
Definition fetch_word : M Z :=
  pc <- get_reg REG_PC ;;
  loadw REG_RESVD pc ;;
  w <- get_reg REG_RESVD ;;
  pc <- get_reg REG_PC ;;
  set_reg REG_PC (pc + 4) ;;
  pure w.

(** The four words of an instruction *)
Definition fetch : M (Z * Z * Z * Z) :=
  opcode <- fetch_word ;;
  op1 <- fetch_word ;;
  op2 <- fetch_word ;;
  op3 <- fetch_word ;;
  pure (opcode, op1, op2, op3).

(** [INSTRS[opcode]] *)
Definition instrs_get (opcode : Z)
  : M ((arg_type * arg_type * arg_type) * instr_fn) :=
  match py_index (length INSTRS) opcode with
  | Some n => match INSTRS !! n with
              | Some e => pure e
              | None => raise IndexError
              end
  | None => raise IndexError
  end.

(** The part of [decode_next_instr] after the four reads *)
Definition dispatch (opcode op1 op2 op3 : Z) : M unit :=
  if opcode >=? Z.of_nat (length INSTRS) then trap TRAP_ILL
  else
    e <- instrs_get opcode ;;
    let '((t1, t2, t3), fn) := e in
    match check_args (combine [t1; t2; t3] [op1; op2; op3]) [] with
    | None => trap TRAP_ILL
    | Some arglist => call fn arglist
    end.

Definition decode_next_instr : M unit :=
  i <- fetch ;;
  let '(opcode, op1, op2, op3) := i in
  dispatch opcode op1 op2 op3.

(** ** Reading a state *)

(** Value of register [i] (for [0 <= i <= 0x20]) *)
Definition reg (s : CPU) (i : Z) : Z := nth (Z.to_nat i) (registers s) 0.

(** Byte of memory at address [a] (for [0 <= a < len]) *)
Definition byte_at (s : CPU) (a : Z) : Z := nth (Z.to_nat a) (memory s) 0.

(** The state with register [i] replaced *)
Definition with_reg (i v : Z) (s : CPU) : CPU :=
  mkCPU (memory s) (<[Z.to_nat i := v]> (registers s))
        (intr_event s) (intr_mask s) (intr_pending s).

(** The state with the byte at [a] replaced *)
Definition with_byte (a v : Z) (s : CPU) : CPU :=
  mkCPU (<[Z.to_nat a := v]> (memory s)) (registers s)
        (intr_event s) (intr_mask s) (intr_pending s).

Definition with_event (b : bool) (s : CPU) : CPU :=
  mkCPU (memory s) (registers s) b (intr_mask s) (intr_pending s).
Definition with_mask (b : bool) (s : CPU) : CPU :=
  mkCPU (memory s) (registers s) (intr_event s) b (intr_pending s).
Definition with_pending (b : bool) (s : CPU) : CPU :=
  mkCPU (memory s) (registers s) (intr_event s) (intr_mask s) b.

(** A register file of 33 slots, as [__init__] builds it; no method
    changes its length. *)
Definition wf (s : CPU) : Prop := length (registers s) = 33%nat.

(** A register index a program can pass: [0 .. 0x20] *)
Definition valid_reg (i : Z) : Prop := 0 <= i <= REG_RESVD.

(** Address [a] lies inside the memory of [s]. *)
Definition in_mem (s : CPU) (a : Z) : Prop :=
  0 <= a < Z.of_nat (length (memory s)).

(** Index [a] is one the memory of [s] accepts: an address inside it, or
    a negative index no further back than its length. *)
Definition mem_hit (s : CPU) (a : Z) : Prop :=
  - Z.of_nat (length (memory s)) <= a < Z.of_nat (length (memory s)).

(** The address that index [a] denotes in the memory of [s] *)
Definition mem_pos (s : CPU) (a : Z) : Z :=
  if a <? 0 then Z.of_nat (length (memory s)) + a else a.

(** The state [trap] leaves when it jumps to vector [vec]: event set then
    cleared, interrupts masked, [TRAP = 1], [RET] = the old [PC],
    [PC = vec]. *)
Definition enter (vec : Z) (s : CPU) : CPU :=
  with_event false
    (with_reg REG_PC vec
       (with_reg REG_RET (reg s REG_PC)
          (with_reg REG_TRAP 1 (with_mask true (with_event true s))))).

(** The vector a call [trap(addr)] ends up at: the double trap vector when
    [TRAP] is already set and [addr] is another vector, and also for a
    negative [addr], which [jmp] refuses; [addr] otherwise. *)
Definition trap_vector (s : CPU) (addr : Z) : Z :=
  if (negb (reg s REG_TRAP =? 0) && negb (addr =? TRAP_DTRAP)) || (addr <? 0)
  then TRAP_DTRAP else addr.

(** ** Call sequences and sample states *)

(** [n] calls of [intr()] in a row *)
Fixpoint intr_times (n : nat) : M unit :=
  match n with
  | O => pure tt
  | S n' => intr ;; intr_times n'
  end.

(** A fresh CPU over [mem] whose registers are then set as listed. *)
Definition cpu_with (mem : list Z) (regs : list (Z * Z)) : CPU :=
  fold_left (fun s '(i, v) => with_reg i v s) regs (init mem).

(** Inside a trap handler ([TRAP = 1]) at [PC = 0x104], about to divide
    register 6 by register 7, which holds zero. *)
Definition st_in_handler : CPU :=
  with_mask true (cpu_with [] [(REG_PC, 0x104); (REG_TRAP, 1); (6, 10)]).

(** Running code ([TRAP = 0]) at [PC = 0x104], registers 6 and 7 set. *)
Definition st_running : CPU :=
  cpu_with [] [(REG_PC, 0x104); (6, 10); (7, 20)].

(** Register 6 holds -1 (as [sub] leaves it for 0 - 1); eight bytes of
    memory. *)
Definition st_minus_one : CPU :=
  cpu_with [0; 0; 0; 0; 0; 0; 0; 0] [(6, -1)].

(** The big-endian word [loadw] assembles from the four bytes at [a] *)
Definition word_at (s : CPU) (a : Z) : Z :=
  Z.lor (Z.lor (Z.lor (Z.shiftl (byte_at s a) 24)
                      (Z.shiftl (byte_at s (a + 1)) 16))
               (Z.shiftl (byte_at s (a + 2)) 8))
        (byte_at s (a + 3)).

(** The word [loadw] assembles from the four indices [a .. a+3], each
    taken as the memory takes it *)
Definition word_index (s : CPU) (a : Z) : Z :=
  Z.lor (Z.lor (Z.lor (Z.shiftl (byte_at s (mem_pos s a)) 24)
                      (Z.shiftl (byte_at s (mem_pos s (a + 1))) 16))
               (Z.shiftl (byte_at s (mem_pos s (a + 2))) 8))
        (byte_at s (mem_pos s (a + 3))).

(** ** Invariants of the register file and memory *)

(** The signed 33-bit range [[-2^32, 2^32 - 1]] *)
Definition in_range (v : Z) : Prop := MINVAL <= v <= MAXVAL.

Definition is_byte (v : Z) : Prop := 0 <= v <= 255.

(** A value a decoded operand word can take *)
Definition is_word (v : Z) : Prop := 0 <= v < 2 ^ 32.

Definition regs_ok (s : CPU) : Prop := Forall in_range (registers s).

(** Memory holds bytes, fewer than [2^32] of them. *)
Definition mem_ok (s : CPU) : Prop :=
  Forall is_byte (memory s) /\ Z.of_nat (length (memory s)) <= MAXVAL.

Definition carry01 (s : CPU) : Prop :=
  reg s REG_CARRY = 0 \/ reg s REG_CARRY = 1.

Definition trap01 (s : CPU) : Prop :=
  reg s REG_TRAP = 0 \/ reg s REG_TRAP = 1.

(** The standing invariant: 33 registers, each in range, over a memory
    of bytes. *)
Definition cpu_inv (s : CPU) : Prop := wf s /\ regs_ok s /\ mem_ok s.

(** The method the decoder selects for [opcode], if any: none from
    [len(INSTRS)] upwards, and [INSTRS[opcode]] below it. *)
Definition selected_fn (opcode : Z) : option instr_fn :=
  if opcode >=? Z.of_nat (length INSTRS) then None
  else match py_index (length INSTRS) opcode with
       | Some n => match INSTRS !! n with
                   | Some (_, fn) => Some fn
                   | None => None
                   end
       | None => None
       end.

(** The operands of a call of [fn] that name a register the method
    writes: the target of a load or [copy], both operands of [swap], the
    last register of the arithmetic, logic and shift operations. *)
Definition dest_regs (fn : instr_fn) (op1 op2 op3 : Z) : list Z :=
  match fn with
  | F_loadw | F_loadwr | F_loadwi | F_loadb | F_loadbr | F_loadbi
  | F_copy => [op1]
  | F_swap => [op1; op2]
  | F_not => [op2]
  | F_add | F_sub | F_mul | F_div | F_addi | F_subi | F_muli | F_divi
  | F_and | F_or | F_xor | F_andi | F_ori | F_xori
  | F_shl | F_shr | F_shli | F_shri => [op3]
  | _ => []
  end.



(** ** Outcomes *)

(** [wp m s Q E]: run from [s], [m] returns in a state satisfying [Q] or
    ends with an exception satisfying [E]. *)
Definition wp {A} (m : M A) (s : CPU) (Q : A -> CPU -> Prop)
    (E : exn -> Prop) : Prop :=
  match m s with
  | Ok a s' => Q a s'
  | Raise e => E e
  end.

(** ** Sample programs *)

Definition word_bytes (w : Z) : list Z :=
  [Z.land (Z.shiftr w 24) 0xff; Z.land (Z.shiftr w 16) 0xff;
   Z.land (Z.shiftr w 8) 0xff; Z.land w 0xff].

(** One instruction in the program format: four big-endian words. *)
Definition encode (opcode op1 op2 op3 : Z) : list Z :=
  word_bytes opcode ++ word_bytes op1 ++ word_bytes op2 ++ word_bytes op3.

(** [loadwi 0x20, 7] at address 0 of a fresh CPU *)
Definition st_loadwi_resvd : CPU := init (encode 0x6 0x20 7 0).

(** [loadwi 0x21, 7] at address 0 of a fresh CPU *)
Definition st_loadwi_0x21 : CPU := init (encode 0x6 0x21 7 0).

(** [shli R6, 40, R7] at address 0, register 6 holding 1 *)
Definition st_shli : CPU := cpu_with (encode 0x33 6 40 7) [(6, 1)].

(** [loadwi CARRY, 5] at address 0 of a fresh CPU *)
Definition st_loadwi_carry : CPU := init (encode 0x6 REG_CARRY 5 0).

(** [loadwi TRAP, 7] at address 0 of a fresh CPU *)
Definition st_loadwi_trap : CPU := init (encode 0x6 REG_TRAP 7 0).

(** [loadb R6, 0x100] at address 0 of a fresh CPU with 16 bytes of
    memory *)
Definition st_loadb_far : CPU := init (encode 0xa 6 0x100 0).


(** [add R6, R7, R8] at address 0, registers 6 and 7 holding
    [0xFFFFFFFE] and 3 *)
Definition st_add : CPU :=
  cpu_with (encode 0xd 6 7 8) [(6, 0xFFFFFFFE); (7, 3)].

(** [n] calls of [decode_next_instr()] in a row, as the driver of the
    engine makes them *)
Fixpoint run (n : nat) : M unit :=
  match n with
  | O => pure tt
  | S n' => decode_next_instr ;; run n'
  end.

(** The six methods that write memory *)
Definition is_store (fn : instr_fn) : bool :=
  match fn with
  | F_savew | F_savewr | F_savewi | F_saveb | F_savebr | F_savebi => true
  | _ => false
  end.

(** The methods that read or write memory *)
Definition accesses_memory (fn : instr_fn) : bool :=
  match fn with
  | F_savew | F_savewr | F_savewi | F_loadw | F_loadwr
  | F_saveb | F_savebr | F_savebi | F_loadb | F_loadbr => true
  | _ => false
  end.

(** What can make the dispatch of the method selection [sel] end with
    exception [e] *)
Definition abort_cause (sel : option instr_fn) (e : exn) : Prop :=
  match e with
  | IndexError =>
      sel = None \/ exists fn, sel = Some fn /\ accesses_memory fn = true
  | ValueError => sel = Some F_shl \/ sel = Some F_shr
  | SystemExit => sel = Some F_halt
  | Blocked => sel = Some F_wait
  | TypeError | RecursionError | OverflowError => False
  end.

(** The operands the decoder passes on: those whose kind is not
    [IA_NONE], in order *)
Definition passed_operands (l : list (arg_type * Z)) : list Z :=
  map snd
    (List.filter
       (fun p => match fst p with IA_NONE => false | _ => true end) l).

(** [nop] with operand words 1, 2, 3 at address 0 of a fresh CPU *)
Definition st_nop : CPU := init (encode 0x0 1 2 3).

(** Opcode [0xff] at address 0 of a fresh CPU *)
Definition st_bad_opcode : CPU := init (encode 0xff 0 0 0).

(** [savebi 0x1ff, 8] at address 0 of a fresh CPU *)
Definition st_savebi : CPU := init (encode 0x9 0x1ff 8 0).

(** In a handler that was entered from address [0x200], with an
    interrupt recorded while masked *)
Definition st_pending : CPU :=
  with_pending true
    (with_mask true
       (cpu_with [] [(REG_PC, 0x40); (REG_RET, 0x200); (REG_TRAP, 1)])).

(** * Properties *)

(** ** The monad *)

Lemma bind_ok {A B} (m : M A) (k : A -> M B) s a s' :
  m s = Ok a s' -> bind m k s = k a s'.
Proof. intros H. unfold bind. now rewrite H. Qed.

Lemma bind_raise {A B} (m : M A) (k : A -> M B) s e :
  m s = Raise e -> bind m k s = Raise e.
Proof. intros H. unfold bind. now rewrite H. Qed.

Lemma bind_ext {A B} (m : M A) (k1 k2 : A -> M B) s :
  (forall a s', k1 a s' = k2 a s') -> bind m k1 s = bind m k2 s.
Proof. intros H. unfold bind. destruct (m s); auto. Qed.

Lemma bind_inv {A B} (m : M A) (k : A -> M B) s b s' :
  bind m k s = Ok b s' -> exists a s1, m s = Ok a s1 /\ k a s1 = Ok b s'.
Proof.
  unfold bind. destruct (m s) as [a s1|e]; [|discriminate].
  intros H. exists a, s1. auto.
Qed.

(** ** Registers and flags on a well-formed state *)

Lemma valid_reg_index i :
  valid_reg i -> py_index 33 i = Some (Z.to_nat i) /\ (Z.to_nat i < 33)%nat.
Proof.
  unfold valid_reg, REG_RESVD, py_index. intros H.
  replace (0 <=? i) with true by (symmetry; apply Z.leb_le; lia).
  replace (i <? Z.of_nat 33) with true by (symmetry; apply Z.ltb_lt; lia).
  split; [reflexivity | lia].
Qed.

Lemma wf_with_reg i v s : wf s -> wf (with_reg i v s).
Proof. unfold wf, with_reg. simpl. now rewrite length_insert. Qed.

Lemma wf_with_byte a v s : wf s -> wf (with_byte a v s).
Proof. auto. Qed.

Lemma wf_with_event b s : wf s -> wf (with_event b s).
Proof. auto. Qed.

Lemma wf_with_mask b s : wf s -> wf (with_mask b s).
Proof. auto. Qed.

Lemma wf_with_pending b s : wf s -> wf (with_pending b s).
Proof. auto. Qed.

Lemma valid_reg_const i : (0 <=? i) && (i <=? 0x20) = true -> valid_reg i.
Proof.
  unfold valid_reg, REG_RESVD. intros H.
  apply andb_true_iff in H as [H1 H2].
  apply Z.leb_le in H1. apply Z.leb_le in H2. lia.
Qed.

Create HintDb cpu.
#[export] Hint Resolve wf_with_reg wf_with_byte wf_with_event wf_with_mask
  wf_with_pending : cpu.
#[export] Hint Extern 1 (valid_reg _) =>
  (apply valid_reg_const; reflexivity) : cpu.

Lemma get_reg_ok i s : wf s -> valid_reg i -> get_reg i s = Ok (reg s i) s.
Proof.
  intros Hwf Hi. unfold get_reg, reg. unfold wf in Hwf. rewrite Hwf.
  destruct (valid_reg_index i Hi) as [-> Hlt].
  destruct (lookup_lt_is_Some_2 (registers s) (Z.to_nat i)) as [v Hv]; [lia|].
  rewrite Hv. now rewrite (nth_lookup_Some _ _ _ _ Hv).
Qed.

Lemma set_reg_ok i v s :
  wf s -> valid_reg i -> set_reg i v s = Ok tt (with_reg i v s).
Proof.
  intros Hwf Hi. unfold set_reg. rewrite Hwf.
  now destruct (valid_reg_index i Hi) as [-> _].
Qed.

Lemma bind_get_reg {B} i (k : Z -> M B) s :
  wf s -> valid_reg i -> bind (get_reg i) k s = k (reg s i) s.
Proof. intros. apply bind_ok. now apply get_reg_ok. Qed.

Lemma bind_set_reg {B} i v (k : unit -> M B) s :
  wf s -> valid_reg i -> bind (set_reg i v) k s = k tt (with_reg i v s).
Proof. intros. apply bind_ok. now apply set_reg_ok. Qed.

Lemma bind_set_event {B} b (k : unit -> M B) s :
  bind (set_intr_event b) k s = k tt (with_event b s).
Proof. reflexivity. Qed.

Lemma bind_set_mask {B} b (k : unit -> M B) s :
  bind (set_intr_mask b) k s = k tt (with_mask b s).
Proof. reflexivity. Qed.

Lemma bind_set_pending {B} b (k : unit -> M B) s :
  bind (set_intr_pending b) k s = k tt (with_pending b s).
Proof. reflexivity. Qed.

Lemma bind_dsi {B} (k : unit -> M B) s :
  bind dsi k s = k tt (with_mask true s).
Proof. reflexivity. Qed.

Lemma bind_pure {A B} (a : A) (k : A -> M B) s : bind (pure a) k s = k a s.
Proof. reflexivity. Qed.

Lemma reg_with_reg_eq i v s :
  wf s -> valid_reg i -> reg (with_reg i v s) i = v.
Proof.
  intros Hwf Hi. unfold reg, with_reg. simpl.
  apply nth_lookup_Some, list_lookup_insert_eq.
  rewrite Hwf. now destruct (valid_reg_index i Hi).
Qed.

Lemma reg_with_reg_ne i j v s :
  valid_reg i -> valid_reg j -> i <> j -> reg (with_reg i v s) j = reg s j.
Proof.
  unfold valid_reg, REG_RESVD. intros Hi Hj Hne. unfold reg, with_reg. simpl.
  rewrite !nth_lookup, list_lookup_insert_ne; [reflexivity | lia].
Qed.

Lemma reg_with_event b s i : reg (with_event b s) i = reg s i.
Proof. reflexivity. Qed.

Lemma reg_with_mask b s i : reg (with_mask b s) i = reg s i.
Proof. reflexivity. Qed.

Lemma reg_with_pending b s i : reg (with_pending b s) i = reg s i.
Proof. reflexivity. Qed.

Lemma reg_with_byte a v s i : reg (with_byte a v s) i = reg s i.
Proof. reflexivity. Qed.

Lemma with_reg_twice i v w s : with_reg i v (with_reg i w s) = with_reg i v s.
Proof. unfold with_reg. simpl. now rewrite list_insert_insert_eq. Qed.

Lemma with_reg_swap i j v w s :
  valid_reg i -> valid_reg j -> i <> j ->
  with_reg i v (with_reg j w s) = with_reg j w (with_reg i v s).
Proof.
  unfold valid_reg, REG_RESVD. intros Hi Hj Hne. unfold with_reg. simpl.
  rewrite list_insert_insert_ne; [reflexivity | lia].
Qed.

(** Symbolic execution of straight-line code on a well-formed state *)
Ltac cpu_side := solve [ eauto 10 with cpu ].

Ltac cpu_step :=
  first
    [ rewrite bind_get_reg by cpu_side
    | rewrite bind_set_reg by cpu_side
    | rewrite bind_set_event
    | rewrite bind_set_mask
    | rewrite bind_set_pending
    | rewrite bind_dsi
    | rewrite bind_pure
    | rewrite get_reg_ok by cpu_side
    | rewrite set_reg_ok by cpu_side ];
  cbv beta.

Ltac cpu_run := repeat cpu_step.

(** ** [trap]: depth and result *)

Lemma trap_rec_S d addr :
  trap_rec (S d) addr =
    (set_intr_event true ;;
     dsi ;;
     t <- get_reg REG_TRAP ;;
     if negb (t =? 0) && negb (addr =? TRAP_DTRAP) then
       trap_rec d TRAP_DTRAP
     else
       set_reg REG_TRAP 1 ;;
       pc <- get_reg REG_PC ;;
       set_reg REG_RET pc ;;
       jmp_with (trap_rec d) addr ;;
       set_intr_event false).
Proof. reflexivity. Qed.

Lemma jmp_with_nonneg f g addr s :
  0 <= addr -> jmp_with f addr s = jmp_with g addr s.
Proof.
  intros H. unfold jmp_with.
  replace (addr <? 0) with false by (symmetry; apply Z.ltb_ge; lia).
  reflexivity.
Qed.

Lemma trap_rec_direct n m addr s :
  0 <= addr ->
  (forall s', trap_rec n TRAP_DTRAP s' = trap_rec m TRAP_DTRAP s') ->
  trap_rec (S n) addr s = trap_rec (S m) addr s.
Proof.
  intros Hv IH. rewrite !trap_rec_S.
  do 3 (apply bind_ext; intros ? ?).
  destruct (negb _ && negb _); [apply IH|].
  do 3 (apply bind_ext; intros ? ?).
  unfold bind. now rewrite (jmp_with_nonneg _ (trap_rec m)).
Qed.

Lemma trap_rec_dtrap n s :
  trap_rec (S n) TRAP_DTRAP s = trap_rec 1 TRAP_DTRAP s.
Proof.
  rewrite !trap_rec_S.
  do 3 (apply bind_ext; intros ? ?).
  rewrite Z.eqb_refl, andb_false_r.
  do 3 (apply bind_ext; intros ? ?).
  unfold bind. now rewrite (jmp_with_nonneg _ (trap_rec 0)).
Qed.

Lemma trap_rec_nonneg n addr s :
  0 <= addr -> trap_rec (S (S n)) addr s = trap_rec 2 addr s.
Proof.
  intros H. apply trap_rec_direct; [assumption|].
  intros s'. apply trap_rec_dtrap.
Qed.

(** Three levels are enough for [trap]: a deeper allowance changes
    nothing. *)
Lemma trap_rec_depth n addr s :
  (3 <= n)%nat -> trap_rec n addr s = trap addr s.
Proof.
  intros Hn. unfold trap.
  destruct n as [|[|[|n]]]; try lia. clear Hn.
  rewrite (trap_rec_S (S (S n))), (trap_rec_S 2).
  do 3 (apply bind_ext; intros ? ?).
  destruct (negb _ && negb _).
  - rewrite trap_rec_dtrap. symmetry. apply trap_rec_dtrap.
  - do 3 (apply bind_ext; intros ? ?).
    unfold bind, jmp_with. destruct (addr <? 0); [|reflexivity].
    rewrite (trap_rec_nonneg n) by (unfold TRAP_ILL; lia). reflexivity.
Qed.

(** [trap] satisfies the recursive definition of the source. *)
Lemma trap_unfold addr s :
  trap addr s =
    (set_intr_event true ;;
     dsi ;;
     t <- get_reg REG_TRAP ;;
     if negb (t =? 0) && negb (addr =? TRAP_DTRAP) then
       trap TRAP_DTRAP
     else
       set_reg REG_TRAP 1 ;;
       pc <- get_reg REG_PC ;;
       set_reg REG_RET pc ;;
       jmp addr ;;
       set_intr_event false) s.
Proof.
  rewrite <- (trap_rec_depth 4) by lia. rewrite trap_rec_S.
  reflexivity.
Qed.


Ltac reg_side :=
  first [ cpu_side | discriminate | assumption
        | unfold valid_reg, REG_PC, REG_SP, REG_RES, REG_CARRY, REG_RET,
            REG_TRAP, REG_RESVD in *; lia ].

Ltac reg_simp :=
  repeat first
    [ rewrite reg_with_event
    | rewrite reg_with_mask
    | rewrite reg_with_pending
    | rewrite reg_with_byte
    | rewrite reg_with_reg_eq by cpu_side
    | rewrite reg_with_reg_ne by reg_side ].

Lemma enter_masked vec s :
  enter vec (with_mask true (with_event true s)) = enter vec s.
Proof. reflexivity. Qed.

Lemma trap_rec_dtrap_ok n s :
  wf s -> trap_rec (S n) TRAP_DTRAP s = Ok tt (enter TRAP_DTRAP s).
Proof.
  intros Hwf. rewrite trap_rec_S. cpu_run.
  rewrite Z.eqb_refl, andb_false_r. cpu_run.
  unfold jmp_with. replace (TRAP_DTRAP <? 0) with false by reflexivity.
  cpu_run. reg_simp. reflexivity.
Qed.

Lemma trap_rec_nonneg_ok n addr s :
  wf s -> 0 <= addr ->
  trap_rec (S (S n)) addr s = Ok tt (enter (trap_vector s addr) s).
Proof.
  intros Hwf Ha. unfold trap_vector. rewrite trap_rec_S. cpu_run. reg_simp.
  replace (addr <? 0) with false by (symmetry; apply Z.ltb_ge; lia).
  rewrite orb_false_r.
  destruct (negb (reg s REG_TRAP =? 0) && negb (addr =? TRAP_DTRAP)).
  - rewrite trap_rec_dtrap_ok by cpu_side. now rewrite enter_masked.
  - cpu_run. unfold jmp_with.
    replace (addr <? 0) with false by (symmetry; apply Z.ltb_ge; lia).
    cpu_run. reg_simp. reflexivity.
Qed.

Lemma cpu_eq (a b : CPU) :
  memory a = memory b -> registers a = registers b ->
  intr_event a = intr_event b -> intr_mask a = intr_mask b ->
  intr_pending a = intr_pending b -> a = b.
Proof. destruct a, b. simpl. intros. now subst. Qed.

Lemma registers_with_reg i v s :
  registers (with_reg i v s) = <[Z.to_nat i := v]> (registers s).
Proof. reflexivity. Qed.

Lemma registers_with_event b s : registers (with_event b s) = registers s.
Proof. reflexivity. Qed.

Lemma registers_with_mask b s : registers (with_mask b s) = registers s.
Proof. reflexivity. Qed.

(** Entering a trap from a state that an outer [trap] already prepared
    ([TRAP = 1], [RET] = the [PC]) gives the state of a single entry. *)
Lemma enter_reentered vec s :
  wf s ->
  with_event false
    (enter vec
       (with_reg REG_RET (reg s REG_PC)
          (with_reg REG_TRAP 1 (with_mask true (with_event true s)))))
  = enter vec s.
Proof.
  intros Hwf. unfold enter. reg_simp.
  apply cpu_eq; try reflexivity.
  repeat first [ rewrite registers_with_event
               | rewrite registers_with_reg
               | rewrite registers_with_mask ].
  change (Z.to_nat REG_TRAP) with 5%nat.
  change (Z.to_nat REG_RET) with 4%nat.
  rewrite (list_insert_insert_ne _ 5 4) by lia.
  now rewrite !list_insert_insert_eq.
Qed.

(** On a well-formed state [trap] always returns, in the state [enter]
    builds for the vector [trap_vector] selects. *)
Lemma trap_ok addr s :
  wf s -> trap addr s = Ok tt (enter (trap_vector s addr) s).
Proof.
  intros Hwf. destruct (Z.le_gt_cases 0 addr) as [Ha|Ha].
  { now apply trap_rec_nonneg_ok. }
  unfold trap, trap_vector. rewrite trap_rec_S. cpu_run. reg_simp.
  replace (addr <? 0) with true by (symmetry; apply Z.ltb_lt; lia).
  rewrite orb_true_r.
  destruct (negb (reg s REG_TRAP =? 0) && negb (addr =? TRAP_DTRAP)).
  - rewrite trap_rec_dtrap_ok by cpu_side. now rewrite enter_masked.
  - cpu_run. unfold jmp_with.
    replace (addr <? 0) with true by (symmetry; apply Z.ltb_lt; lia).
    erewrite bind_ok; [|apply trap_rec_nonneg_ok; [cpu_side | discriminate]].
    replace (trap_vector _ TRAP_ILL) with TRAP_DTRAP
      by (unfold trap_vector; reg_simp; reflexivity).
    change (set_intr_event false ?x) with (Ok tt (with_event false x)).
    reg_simp. now rewrite enter_reentered.
Qed.

(** ** Registers of the state [enter] builds *)

Lemma wf_enter vec s : wf s -> wf (enter vec s).
Proof. unfold enter. eauto 10 with cpu. Qed.

#[export] Hint Resolve wf_enter : cpu.

Lemma reg_enter_pc vec s : wf s -> reg (enter vec s) REG_PC = vec.
Proof. intros. unfold enter. now reg_simp. Qed.

Lemma reg_enter_ret vec s : wf s -> reg (enter vec s) REG_RET = reg s REG_PC.
Proof. intros. unfold enter. now reg_simp. Qed.

Lemma reg_enter_trap vec s : wf s -> reg (enter vec s) REG_TRAP = 1.
Proof. intros. unfold enter. now reg_simp. Qed.

Lemma reg_enter_other vec s i :
  valid_reg i -> i <> REG_PC -> i <> REG_RET -> i <> REG_TRAP ->
  reg (enter vec s) i = reg s i.
Proof. intros. unfold enter. now reg_simp. Qed.

Lemma trap_vector_escalates s v :
  reg s REG_TRAP <> 0 -> v <> TRAP_DTRAP -> trap_vector s v = TRAP_DTRAP.
Proof.
  intros Ht Hv. unfold trap_vector.
  replace (reg s REG_TRAP =? 0) with false by (symmetry; now apply Z.eqb_neq).
  replace (v =? TRAP_DTRAP) with false by (symmetry; now apply Z.eqb_neq).
  reflexivity.
Qed.

Lemma trap_vector_direct s v :
  reg s REG_TRAP = 0 -> 0 <= v -> trap_vector s v = v.
Proof.
  intros Ht Hv. unfold trap_vector. rewrite Ht.
  replace (v <? 0) with false by (symmetry; apply Z.ltb_ge; lia).
  reflexivity.
Qed.

(** ** Double trap *)

(** C2. [trap(v)] called while [TRAP = 1] with [v] other than the double
    trap vector returns with [PC = 0x40], [RET] = the [PC] at the call,
    [TRAP] still 1 and interrupts masked. *)
Theorem trap_while_trapped_goes_to_dtrap (s : CPU) (v : Z) :
  wf s -> reg s REG_TRAP = 1 -> v <> TRAP_DTRAP ->
  exists s', trap v s = Ok tt s'
    /\ reg s' REG_PC = 0x40
    /\ reg s' REG_RET = reg s REG_PC
    /\ reg s' REG_TRAP = 1
    /\ intr_mask s' = true.
Proof.
  intros Hwf Ht Hv. exists (enter TRAP_DTRAP s).
  rewrite trap_ok by assumption.
  rewrite trap_vector_escalates by (congruence || lia).
  rewrite reg_enter_pc, reg_enter_ret, reg_enter_trap by assumption.
  repeat split; reflexivity.
Qed.

Lemma trap_while_trapped_witness :
  wf st_in_handler /\ reg st_in_handler REG_TRAP = 1 /\
  exists s', trap TRAP_DIV st_in_handler = Ok tt s'
    /\ reg s' REG_PC = 0x40
    /\ reg s' REG_RET = reg st_in_handler REG_PC
    /\ reg s' REG_TRAP = 1
    /\ intr_mask s' = true.
Proof.
  split; [reflexivity|]. split; [reflexivity|].
  apply (trap_while_trapped_goes_to_dtrap st_in_handler TRAP_DIV);
    [reflexivity | reflexivity | discriminate].
Defined.

(** ** Deferred interrupts *)

Lemma intr_masked s :
  intr_mask s = true -> intr s = Ok tt (with_pending true s).
Proof. intros H. unfold intr, bind, get_intr_mask. now rewrite H. Qed.

Lemma intr_times_masked n s :
  intr_mask s = true -> (1 <= n)%nat ->
  intr_times n s = Ok tt (with_pending true s).
Proof.
  intros Hm Hn. destruct n as [|n]; [lia|]. clear Hn.
  revert s Hm. induction n as [|n IH]; intros s Hm.
  - cbn [intr_times]. rewrite (bind_ok _ _ _ _ _ (intr_masked s Hm)).
    reflexivity.
  - change (intr_times (S (S n))) with (intr ;; intr_times (S n)).
    rewrite (bind_ok _ _ _ _ _ (intr_masked s Hm)).
    rewrite IH by exact Hm. reflexivity.
Qed.

Lemma eni_pending s :
  wf s -> intr_pending s = true ->
  eni s = Ok tt (enter (trap_vector s TRAP_INTR) (with_pending false s)).
Proof.
  intros Hwf Hp. unfold eni. cpu_run.
  unfold bind, get_intr_pending. cbn [intr_pending with_mask]. rewrite Hp.
  unfold intr. cbn [bind get_intr_mask intr_mask with_mask].
  cpu_run. rewrite trap_ok by cpu_side. reflexivity.
Qed.

Lemma eni_not_pending s :
  intr_pending s = false -> eni s = Ok tt (with_mask false s).
Proof.
  intros Hp. unfold eni. cpu_run.
  unfold bind, get_intr_pending. cbn [intr_pending with_mask]. now rewrite Hp.
Qed.

(** C3. With interrupts masked and none pending, [n >= 1] calls of
    [intr()] only set [intr_pending]; one [eni()] with [TRAP = 0] then
    runs [trap(TRAP_INTR)] once ([PC = 0x10], [TRAP = 1], [RET] = the old
    [PC]) and leaves nothing pending, so a further [eni()] delivers
    nothing. *)
Theorem masked_interrupts_collapse (s : CPU) (n : nat) :
  wf s -> intr_mask s = true -> intr_pending s = false -> (1 <= n)%nat ->
  reg s REG_TRAP = 0 ->
  exists s1 s2,
    intr_times n s = Ok tt s1
    /\ s1 = with_pending true s
    /\ eni s1 = Ok tt s2
    /\ trap TRAP_INTR (with_pending false (with_mask false s1)) = Ok tt s2
    /\ reg s2 REG_PC = 0x10
    /\ reg s2 REG_TRAP = 1
    /\ reg s2 REG_RET = reg s REG_PC
    /\ intr_pending s2 = false
    /\ eni s2 = Ok tt (with_mask false s2).
Proof.
  intros Hwf Hm Hp Hn Ht.
  exists (with_pending true s), (enter TRAP_INTR (with_pending false s)).
  split; [now apply intr_times_masked|]. split; [reflexivity|].
  assert (Hv : trap_vector (with_pending true s) TRAP_INTR = TRAP_INTR)
    by (apply trap_vector_direct; [assumption | discriminate]).
  split.
  { rewrite eni_pending by (cpu_side || reflexivity). now rewrite Hv. }
  split.
  { rewrite trap_ok by cpu_side.
    change (trap_vector _ TRAP_INTR)
      with (trap_vector (with_pending true s) TRAP_INTR).
    now rewrite Hv. }
  rewrite reg_enter_pc, reg_enter_trap, reg_enter_ret by cpu_side.
  repeat split; reflexivity.
Qed.

Lemma masked_interrupts_collapse_witness :
  exists s1 s2,
    intr_times 3 (with_mask true st_running) = Ok tt s1
    /\ s1 = with_pending true (with_mask true st_running)
    /\ eni s1 = Ok tt s2
    /\ trap TRAP_INTR (with_pending false (with_mask false s1)) = Ok tt s2
    /\ reg s2 REG_PC = 0x10
    /\ reg s2 REG_TRAP = 1
    /\ reg s2 REG_RET = reg (with_mask true st_running) REG_PC
    /\ intr_pending s2 = false
    /\ eni s2 = Ok tt (with_mask false s2).
Proof.
  apply (masked_interrupts_collapse (with_mask true st_running) 3);
    [reflexivity | reflexivity | reflexivity | lia | reflexivity].
Defined.

(** ** Return from a trap *)

Lemma ret_unfold s :
  wf s ->
  ret s = eni (with_reg REG_PC (reg s REG_RET) (with_reg REG_TRAP 0 s)).
Proof. intros Hwf. unfold ret. cpu_run. now reg_simp. Qed.

(** C6. [ret()] clears [TRAP], copies [RET] to [PC] and, through
    [eni()], enables interrupts again. With no interrupt pending it
    returns in exactly the state that has [TRAP = 0], [PC = RET] and
    [intr_mask] false, whatever the mask was before; with one pending,
    [eni()] delivers it from that state. Hence after one [trap(v)] with no
    interrupt pending, [ret()] returns with [PC] back to its value at the
    call of [trap], [TRAP = 0] and interrupts enabled; [RET] holds that
    same [PC], and the other registers and memory are as before the
    trap. *)
Theorem ret_after_trap_restores_pc (s : CPU) (v : Z) :
  wf s ->
  (intr_pending s = false ->
   ret s = Ok tt (with_mask false
                    (with_reg REG_PC (reg s REG_RET)
                       (with_reg REG_TRAP 0 s))))
  /\ (intr_pending s = true ->
      ret s = Ok tt (enter TRAP_INTR
                       (with_pending false
                          (with_reg REG_PC (reg s REG_RET)
                             (with_reg REG_TRAP 0 s)))))
  /\ (intr_pending s = false ->
      exists s1 s2,
        trap v s = Ok tt s1
        /\ ret s1 = Ok tt s2
        /\ reg s2 REG_PC = reg s REG_PC
        /\ reg s2 REG_TRAP = 0
        /\ intr_mask s2 = false
        /\ intr_pending s2 = false
        /\ reg s2 REG_RET = reg s REG_PC
        /\ memory s2 = memory s
        /\ (forall i, valid_reg i ->
                      i <> REG_PC -> i <> REG_RET -> i <> REG_TRAP ->
                      reg s2 i = reg s i)).
Proof.
  intros Hwf. split; [|split].
  - intros Hp. rewrite ret_unfold by assumption.
    now apply eni_not_pending.
  - intros Hp. rewrite ret_unfold by assumption.
    rewrite eni_pending by (cpu_side || exact Hp).
    rewrite trap_vector_direct; [reflexivity | now reg_simp | discriminate].
  - intros Hp. eexists _, _. split; [now apply trap_ok|].
    rewrite ret_unfold by cpu_side.
    rewrite eni_not_pending by exact Hp.
    rewrite reg_enter_ret by assumption.
    split; [reflexivity|].
    split; [now reg_simp|]. split; [now reg_simp|].
    split; [reflexivity|]. split; [exact Hp|].
    split; [reg_simp; now apply reg_enter_ret|].
    split; [reflexivity|].
    intros i Hi Hpc Hret Ht. reg_simp.
    now apply reg_enter_other.
Qed.

Lemma ret_after_trap_witness :
  exists s1 s2,
    trap TRAP_DIV st_running = Ok tt s1
    /\ intr_mask s1 = true
    /\ ret s1 = Ok tt s2
    /\ reg s2 REG_PC = 0x104
    /\ reg s2 REG_TRAP = 0
    /\ intr_mask s2 = false.
Proof.
  destruct (ret_after_trap_restores_pc st_running TRAP_DIV) as (_ & _ & H);
    [reflexivity|].
  destruct H as (s1 & s2 & Ht & Hr & Hpc & Htrap & Hm & _); [reflexivity|].
  exists s1, s2. split; [exact Ht|].
  split; [revert Ht; vm_compute; now intros [= <-]|].
  split; [exact Hr|]. split; [exact Hpc|]. split; [exact Htrap | exact Hm].
Defined.

(** ** Arithmetic *)

Lemma add_ok r1 r2 r3 s :
  wf s -> valid_reg r1 -> valid_reg r2 -> valid_reg r3 ->
  add r1 r2 r3 s =
    Ok tt (with_reg REG_CARRY (int_of_bool (reg s r1 + reg s r2 >? MAXVAL))
             (with_reg r3 ((reg s r1 + reg s r2) mod MAXVAL) s)).
Proof. intros. unfold add. cpu_run. reflexivity. Qed.

Lemma mul_ok r1 r2 r3 s :
  wf s -> valid_reg r1 -> valid_reg r2 -> valid_reg r3 ->
  mul r1 r2 r3 s =
    Ok tt (with_reg REG_CARRY (int_of_bool (reg s r1 * reg s r2 >? MAXVAL))
             (with_reg r3 ((reg s r1 * reg s r2) mod MAXVAL) s)).
Proof. intros. unfold mul. cpu_run. reflexivity. Qed.

Lemma sub_ok r1 r2 r3 s :
  wf s -> valid_reg r1 -> valid_reg r2 -> valid_reg r3 ->
  sub r1 r2 r3 s =
    Ok tt (with_reg REG_CARRY (int_of_bool (reg s r1 - reg s r2 <? MINVAL))
             (with_reg r3 ((reg s r1 - reg s r2) mod MINVAL) s)).
Proof. intros. unfold sub. cpu_run. reflexivity. Qed.

Lemma int_of_bool_gt x y :
  (int_of_bool (x >? y) = 1 <-> x > y) /\ (int_of_bool (x >? y) = 0 <-> x <= y).
Proof.
  rewrite Z.gtb_ltb.
  destruct (Z.ltb_spec y x); simpl; split; split; intros;
    (lia || discriminate).
Qed.

Lemma int_of_bool_lt x y :
  (int_of_bool (x <? y) = 1 <-> x < y) /\ (int_of_bool (x <? y) = 0 <-> y <= x).
Proof.
  destruct (Z.ltb_spec x y); simpl; split; split; intros; (lia || discriminate).
Qed.

(** C1. [add] writes [(a + b) mod MAXVAL], a residue in [[0, MAXVAL)],
    to [r3] and then 1 to [CARRY] iff [a + b > MAXVAL], else 0; [mul] does
    the same with [a * b]; [sub] writes [(a - b) mod MINVAL], a residue in
    [(MINVAL, 0]], to [r3] and then 1 to [CARRY] iff [a - b < MINVAL], else
    0. A raw sum of [MAXVAL] wraps to 0 and [MAXVAL + 1] wraps to 1. The
    write to [CARRY] comes second, so it is what register 3 holds when
    [r3] is [CARRY] itself. *)
Theorem arith_wraps_and_sets_carry (s : CPU) (r1 r2 r3 : Z) :
  wf s -> valid_reg r1 -> valid_reg r2 -> valid_reg r3 ->
  let a := reg s r1 in
  let b := reg s r2 in
  (exists s', add r1 r2 r3 s = Ok tt s'
     /\ s' = with_reg REG_CARRY (int_of_bool (a + b >? MAXVAL))
               (with_reg r3 ((a + b) mod MAXVAL) s)
     /\ (r3 <> REG_CARRY -> reg s' r3 = (a + b) mod MAXVAL)
     /\ 0 <= (a + b) mod MAXVAL < MAXVAL
     /\ (reg s' REG_CARRY = 1 <-> a + b > MAXVAL)
     /\ (reg s' REG_CARRY = 0 <-> a + b <= MAXVAL))
  /\ (exists s', mul r1 r2 r3 s = Ok tt s'
     /\ s' = with_reg REG_CARRY (int_of_bool (a * b >? MAXVAL))
               (with_reg r3 ((a * b) mod MAXVAL) s)
     /\ (r3 <> REG_CARRY -> reg s' r3 = (a * b) mod MAXVAL)
     /\ 0 <= (a * b) mod MAXVAL < MAXVAL
     /\ (reg s' REG_CARRY = 1 <-> a * b > MAXVAL)
     /\ (reg s' REG_CARRY = 0 <-> a * b <= MAXVAL))
  /\ (exists s', sub r1 r2 r3 s = Ok tt s'
     /\ s' = with_reg REG_CARRY (int_of_bool (a - b <? MINVAL))
               (with_reg r3 ((a - b) mod MINVAL) s)
     /\ (r3 <> REG_CARRY -> reg s' r3 = (a - b) mod MINVAL)
     /\ MINVAL < (a - b) mod MINVAL <= 0
     /\ (reg s' REG_CARRY = 1 <-> a - b < MINVAL)
     /\ (reg s' REG_CARRY = 0 <-> MINVAL <= a - b))
  /\ (a + b = MAXVAL -> (a + b) mod MAXVAL = 0)
  /\ (a + b = MAXVAL + 1 -> (a + b) mod MAXVAL = 1).
Proof.
  intros Hwf H1 H2 H3 a b.
  repeat apply conj.
  - eexists. split; [now apply add_ok|]. split; [reflexivity|].
    split; [intros Hne; now reg_simp|].
    split; [apply Z.mod_pos_bound; reflexivity|].
    reg_simp. apply int_of_bool_gt.
  - eexists. split; [now apply mul_ok|]. split; [reflexivity|].
    split; [intros Hne; now reg_simp|].
    split; [apply Z.mod_pos_bound; reflexivity|].
    reg_simp. apply int_of_bool_gt.
  - eexists. split; [now apply sub_ok|]. split; [reflexivity|].
    split; [intros Hne; now reg_simp|].
    split; [pose proof (Z.mod_neg_bound (a - b) MINVAL);
            unfold MINVAL in *; lia|].
    reg_simp. apply int_of_bool_lt.
  - intros ->. reflexivity.
  - intros ->. reflexivity.
Qed.

Lemma arith_wraps_witness :
  wf st_running /\ valid_reg 6 /\ valid_reg 7 /\ valid_reg 8 /\
  exists s', add 6 7 8 st_running = Ok tt s'
    /\ reg s' 8 = 30 /\ reg s' REG_CARRY = 0.
Proof.
  assert (Hwf : wf st_running) by reflexivity.
  assert (H6 : valid_reg 6) by (unfold valid_reg, REG_RESVD; lia).
  assert (H7 : valid_reg 7) by (unfold valid_reg, REG_RESVD; lia).
  assert (H8 : valid_reg 8) by (unfold valid_reg, REG_RESVD; lia).
  repeat (split; [assumption|]).
  destruct (arith_wraps_and_sets_carry st_running 6 7 8 Hwf H6 H7 H8)
    as [[s' [Hadd [Hs' _]]] _].
  exists s'. split; [exact Hadd|]. rewrite Hs'. split; reflexivity.
Defined.

(** ** [swap] *)

Lemma swap_ok r1 r2 s :
  wf s -> valid_reg r1 -> valid_reg r2 ->
  swap r1 r2 s = Ok tt (with_reg r2 (reg s r1) (with_reg r1 r2 s)).
Proof. intros. unfold swap. cpu_run. reflexivity. Qed.

(** [swap] leaves the index [r2] in register [r1], not the value of
    register [r2]. *)
Lemma swap_writes_index r1 r2 s :
  wf s -> valid_reg r1 -> valid_reg r2 -> r1 <> r2 ->
  exists s', swap r1 r2 s = Ok tt s'
    /\ reg s' r1 = r2 /\ reg s' r2 = reg s r1.
Proof.
  intros Hwf H1 H2 Hne. eexists. split; [now apply swap_ok|].
  now reg_simp.
Qed.

(** C9 (the code departs from it). With 10 in register 6 and 20 in
    register 7, [swap(6, 7)] leaves 10 in register 7 but 7, the index of
    the second register, in register 6, where an exchange would leave
    20. *)
Theorem swap_6_7_stores_index :
  reg st_running 6 = 10 /\ reg st_running 7 = 20 /\
  exists s', swap 6 7 st_running = Ok tt s'
    /\ reg s' 7 = 10 /\ reg s' 6 = 7 /\ reg s' 6 <> reg st_running 7.
Proof.
  split; [reflexivity|]. split; [reflexivity|].
  eexists. split; [reflexivity|].
  repeat split. discriminate.
Qed.

(** ** [div] *)

Lemma div_by_zero_ok r1 r2 r3 s :
  wf s -> valid_reg r2 -> reg s r2 = 0 ->
  div r1 r2 r3 s = Ok tt (enter (trap_vector s TRAP_DIV) s).
Proof.
  intros Hwf H2 Hz. unfold div. cpu_run. rewrite Hz. cbn [Z.eqb].
  now apply trap_ok.
Qed.

Lemma div_nonzero_ok r1 r2 r3 s :
  wf s -> valid_reg r1 -> valid_reg r2 -> valid_reg r3 -> reg s r2 <> 0 ->
  div r1 r2 r3 s =
    Ok tt (with_reg REG_CARRY 0 (with_reg r3 (reg s r1 / reg s r2) s)).
Proof.
  intros Hwf H1 H2 H3 Hz. unfold div. cpu_run.
  replace (reg s r2 =? 0) with false by (symmetry; now apply Z.eqb_neq).
  cpu_run. reflexivity.
Qed.

(** C4 as stated fails: inside a trap handler ([TRAP = 1]) a division by
    zero escalates to the double trap, [PC = 0x40] and not [0x30]; and
    from running code a destination that is [RET] does not keep its
    value. *)
Lemma div_by_zero_not_always_at_div_vector :
  (reg st_in_handler 7 = 0 /\
   exists s', div 6 7 8 st_in_handler = Ok tt s'
     /\ reg s' REG_PC = 0x40 /\ reg s' REG_PC <> 0x30)
  /\ (reg st_running 9 = 0 /\
      exists s', div 6 9 REG_RET st_running = Ok tt s'
        /\ reg s' REG_RET = 0x104
        /\ reg s' REG_RET <> reg st_running REG_RET).
Proof.
  split; (split; [reflexivity|]); eexists;
    (split; [vm_compute; reflexivity|]);
    (split; [reflexivity | discriminate]).
Qed.

(** C4, amended. When register [r2] holds zero, [div] calls
    [trap(TRAP_DIV)]: from running code ([TRAP = 0]) that gives
    [PC = 0x30], [TRAP = 1], [RET] = the old [PC], and inside a handler
    ([TRAP] nonzero) the double trap, [PC = 0x40]; either way every
    register other than [PC], [RET] and [TRAP], so the destination [r3]
    when it is none of these, keeps its value. Otherwise [r3] receives the
    floor quotient and then [CARRY] receives 0. *)
Theorem div_traps_or_divides (s : CPU) (r1 r2 r3 : Z) :
  wf s -> valid_reg r1 -> valid_reg r2 -> valid_reg r3 ->
  let a := reg s r1 in
  let b := reg s r2 in
  (b = 0 ->
     exists s', div r1 r2 r3 s = Ok tt s'
       /\ (reg s REG_TRAP = 0 -> reg s' REG_PC = 0x30)
       /\ (reg s REG_TRAP <> 0 -> reg s' REG_PC = 0x40)
       /\ reg s' REG_TRAP = 1
       /\ reg s' REG_RET = reg s REG_PC
       /\ (forall i, valid_reg i ->
             i <> REG_PC -> i <> REG_RET -> i <> REG_TRAP ->
             reg s' i = reg s i))
  /\ (b <> 0 ->
     exists s', div r1 r2 r3 s = Ok tt s'
       /\ s' = with_reg REG_CARRY 0 (with_reg r3 (a / b) s)
       /\ (r3 <> REG_CARRY -> reg s' r3 = a / b)
       /\ (0 < b -> b * (a / b) <= a < b * (a / b + 1))
       /\ (b < 0 -> b * (a / b + 1) < a <= b * (a / b))
       /\ reg s' REG_CARRY = 0).
Proof.
  intros Hwf H1 H2 H3 a b. split; intros Hb.
  - exists (enter (trap_vector s TRAP_DIV) s).
    split; [now apply div_by_zero_ok|].
    rewrite reg_enter_pc, reg_enter_trap, reg_enter_ret by assumption.
    split; [intros Ht; apply trap_vector_direct; [assumption | discriminate]|].
    split; [intros Ht; apply trap_vector_escalates;
            [assumption | discriminate]|].
    split; [reflexivity|]. split; [reflexivity|].
    intros i Hi Hpc Hret Htrap. now apply reg_enter_other.
  - eexists. split; [now apply div_nonzero_ok|]. split; [reflexivity|].
    split; [intros Hne; now reg_simp|].
    split; [intros Hpos; pose proof (Z.mul_div_le a b Hpos);
            pose proof (Z.mul_succ_div_gt a b Hpos); lia|].
    split; [intros Hneg; pose proof (Z.mul_div_ge a b Hneg);
            pose proof (Z.mul_succ_div_lt a b Hneg); lia|].
    now reg_simp.
Qed.

Lemma div_traps_or_divides_witness :
  wf st_running /\ valid_reg 6 /\ valid_reg 9 /\ valid_reg 8 /\
  exists s', div 6 9 8 st_running = Ok tt s'
    /\ reg s' REG_PC = 0x30 /\ reg s' REG_TRAP = 1
    /\ reg s' REG_RET = 0x104 /\ reg s' 8 = reg st_running 8.
Proof.
  assert (Hwf : wf st_running) by reflexivity.
  assert (H6 : valid_reg 6) by (unfold valid_reg, REG_RESVD; lia).
  assert (H9 : valid_reg 9) by (unfold valid_reg, REG_RESVD; lia).
  assert (H8 : valid_reg 8) by (unfold valid_reg, REG_RESVD; lia).
  repeat (split; [assumption|]).
  destruct (div_traps_or_divides st_running 6 9 8 Hwf H6 H9 H8) as [Hz _].
  destruct (Hz eq_refl) as [s' [Hdiv [Hpc [_ [Ht [Hr Hoth]]]]]].
  exists s'. split; [exact Hdiv|].
  split; [apply Hpc; reflexivity|]. split; [exact Ht|].
  split; [exact Hr|]. apply Hoth; [exact H8 | discriminate..].
Defined.

(** ** Memory *)

Lemma in_mem_index s a :
  in_mem s a ->
  mem_index (length (memory s)) a = Some (Z.to_nat a)
  /\ (Z.to_nat a < length (memory s))%nat.
Proof.
  unfold in_mem, mem_index, py_index. intros H.
  replace (0 <=? a) with true by (symmetry; apply Z.leb_le; lia).
  replace (a <? Z.of_nat (length (memory s))) with true
    by (symmetry; apply Z.ltb_lt; lia).
  split; [reflexivity | lia].
Qed.

Lemma in_mem_hit s a : in_mem s a -> mem_hit s a.
Proof. unfold in_mem, mem_hit. lia. Qed.

Lemma mem_pos_in_mem s a : in_mem s a -> mem_pos s a = a.
Proof.
  unfold in_mem, mem_pos. intros H.
  now replace (a <? 0) with false by (symmetry; apply Z.ltb_ge; lia).
Qed.


Lemma in_mem_pos s a : mem_hit s a -> in_mem s (mem_pos s a).
Proof.
  unfold mem_hit, in_mem, mem_pos. intros H.
  destruct (Z.ltb_spec a 0); lia.
Qed.

Lemma mem_hit_index s a :
  mem_hit s a ->
  mem_index (length (memory s)) a = Some (Z.to_nat (mem_pos s a)).
Proof.
  unfold mem_hit, mem_pos, mem_index, py_index. intros H.
  destruct (Z.ltb_spec a 0) as [Hneg | Hpos].
  - replace (0 <=? a) with false by (symmetry; apply Z.leb_gt; lia).
    replace (- Z.of_nat (length (memory s)) <=? a) with true
      by (symmetry; apply Z.leb_le; lia).
    reflexivity.
  - replace (0 <=? a) with true by (symmetry; apply Z.leb_le; lia).
    replace (a <? Z.of_nat (length (memory s))) with true
      by (symmetry; apply Z.ltb_lt; lia).
    reflexivity.
Qed.

Lemma mem_miss_index s a :
  ~ mem_hit s a -> mem_index (length (memory s)) a = None.
Proof.
  unfold mem_hit, mem_index, py_index. intros H.
  destruct (Z.leb_spec 0 a), (Z.ltb_spec a (Z.of_nat (length (memory s))));
    cbn [andb]; try lia.
  - replace (- Z.of_nat (length (memory s)) <=? a) with true
      by (symmetry; apply Z.leb_le; lia).
    now replace (a <? 0) with false by (symmetry; apply Z.ltb_ge; lia).
  - replace (- Z.of_nat (length (memory s)) <=? a) with false
      by (symmetry; apply Z.leb_gt; lia).
    reflexivity.
Qed.

Lemma mem_get_ok a s : in_mem s a -> mem_get a s = Ok (byte_at s a) s.
Proof.
  intros Ha. unfold mem_get, byte_at.
  destruct (in_mem_index s a Ha) as [-> Hlt].
  destruct (lookup_lt_is_Some_2 (memory s) (Z.to_nat a) Hlt) as [v Hv].
  rewrite Hv. now rewrite (nth_lookup_Some _ _ _ _ Hv).
Qed.

Lemma mem_set_ok a v s : in_mem s a -> mem_set a v s = Ok tt (with_byte a v s).
Proof.
  intros Ha. unfold mem_set. now destruct (in_mem_index s a Ha) as [-> _].
Qed.

(** An index the memory accepts reads or writes the byte at the address
    it denotes; any other raises. *)
Lemma mem_get_hit a s :
  mem_hit s a -> mem_get a s = Ok (byte_at s (mem_pos s a)) s.
Proof.
  intros Ha. unfold mem_get, byte_at. rewrite (mem_hit_index s a Ha).
  destruct (in_mem_index s _ (in_mem_pos s a Ha)) as [_ Hlt].
  destruct (lookup_lt_is_Some_2 (memory s) _ Hlt) as [v Hv].
  rewrite Hv. now rewrite (nth_lookup_Some _ _ _ _ Hv).
Qed.

Lemma mem_set_hit a v s :
  mem_hit s a -> mem_set a v s = Ok tt (with_byte (mem_pos s a) v s).
Proof. intros Ha. unfold mem_set. now rewrite (mem_hit_index s a Ha). Qed.

Lemma mem_get_out a s : ~ mem_hit s a -> mem_get a s = Raise IndexError.
Proof. intros H. unfold mem_get. now rewrite mem_miss_index. Qed.

Lemma mem_set_out a v s : ~ mem_hit s a -> mem_set a v s = Raise IndexError.
Proof. intros H. unfold mem_set. now rewrite mem_miss_index. Qed.

Lemma bind_mem_get {B} a (k : Z -> M B) s :
  in_mem s a -> bind (mem_get a) k s = k (byte_at s a) s.
Proof. intros. apply bind_ok. now apply mem_get_ok. Qed.

Lemma bind_mem_set {B} a v (k : unit -> M B) s :
  in_mem s a -> bind (mem_set a v) k s = k tt (with_byte a v s).
Proof. intros. apply bind_ok. now apply mem_set_ok. Qed.

Lemma in_mem_with_reg i v s a : in_mem s a -> in_mem (with_reg i v s) a.
Proof. auto. Qed.

Lemma in_mem_with_byte b v s a : in_mem s a -> in_mem (with_byte b v s) a.
Proof. unfold in_mem, with_byte. simpl. now rewrite length_insert. Qed.

Lemma in_mem_with_event b s a : in_mem s a -> in_mem (with_event b s) a.
Proof. auto. Qed.

Lemma in_mem_with_mask b s a : in_mem s a -> in_mem (with_mask b s) a.
Proof. auto. Qed.

Lemma in_mem_with_pending b s a : in_mem s a -> in_mem (with_pending b s) a.
Proof. auto. Qed.

#[export] Hint Resolve in_mem_with_reg in_mem_with_byte in_mem_with_event
  in_mem_with_mask in_mem_with_pending : cpu.

Lemma mem_hit_with_reg i v s a : mem_hit s a -> mem_hit (with_reg i v s) a.
Proof. auto. Qed.

Lemma mem_hit_with_byte b v s a : mem_hit s a -> mem_hit (with_byte b v s) a.
Proof. unfold mem_hit, with_byte. simpl. now rewrite length_insert. Qed.

#[export] Hint Resolve mem_hit_with_reg mem_hit_with_byte : cpu.

Lemma mem_pos_with_reg i v s a : mem_pos (with_reg i v s) a = mem_pos s a.
Proof. reflexivity. Qed.

Lemma mem_pos_with_byte b v s a : mem_pos (with_byte b v s) a = mem_pos s a.
Proof. unfold mem_pos, with_byte. simpl. now rewrite length_insert. Qed.

Lemma bind_mem_get_hit {B} a (k : Z -> M B) s :
  mem_hit s a -> bind (mem_get a) k s = k (byte_at s (mem_pos s a)) s.
Proof. intros. apply bind_ok. now apply mem_get_hit. Qed.

Lemma bind_mem_set_hit {B} a v (k : unit -> M B) s :
  mem_hit s a ->
  bind (mem_set a v) k s = k tt (with_byte (mem_pos s a) v s).
Proof. intros. apply bind_ok. now apply mem_set_hit. Qed.

Lemma byte_at_with_byte_eq a v s :
  in_mem s a -> byte_at (with_byte a v s) a = v.
Proof.
  intros Ha. unfold byte_at, with_byte. simpl.
  apply nth_lookup_Some, list_lookup_insert_eq.
  now destruct (in_mem_index s a Ha).
Qed.

Lemma byte_at_with_byte_ne a b v s :
  0 <= a -> 0 <= b -> a <> b -> byte_at (with_byte a v s) b = byte_at s b.
Proof.
  intros Ha Hb Hne. unfold byte_at, with_byte. simpl.
  rewrite !nth_lookup, list_lookup_insert_ne; [reflexivity | lia].
Qed.

Lemma byte_at_with_reg i v s a : byte_at (with_reg i v s) a = byte_at s a.
Proof. reflexivity. Qed.

Ltac mem_run :=
  repeat first
    [ cpu_step
    | rewrite bind_mem_get by cpu_side; cbv beta
    | rewrite bind_mem_set by cpu_side; cbv beta
    | rewrite mem_get_ok by cpu_side
    | rewrite mem_set_ok by cpu_side ].

Ltac byte_simp :=
  repeat first
    [ rewrite byte_at_with_reg
    | rewrite byte_at_with_byte_eq by cpu_side
    | rewrite byte_at_with_byte_ne by lia ].

(** ** Word stores and loads *)

Lemma savew_ok r a s :
  wf s -> valid_reg r -> a + 3 <= MAXVAL ->
  in_mem s a -> in_mem s (a + 1) -> in_mem s (a + 2) -> in_mem s (a + 3) ->
  savew r a s =
    Ok tt (with_byte (a + 3) (Z.land (reg s r) 0xff)
          (with_byte (a + 2) (Z.land (Z.shiftr (reg s r) 8) 0xff)
          (with_byte (a + 1) (Z.land (Z.shiftr (reg s r) 16) 0xff)
          (with_byte a (Z.land (Z.shiftr (reg s r) 24) 0xff) s)))).
Proof.
  intros Hwf Hr Hmax H0 H1 H2 H3. unfold savew.
  replace (a + 3 >? MAXVAL) with false
    by (symmetry; rewrite Z.gtb_ltb; apply Z.ltb_ge; lia).
  mem_run. reflexivity.
Qed.

Lemma loadw_ok r a s :
  wf s -> valid_reg r -> a + 3 <= MAXVAL ->
  in_mem s a -> in_mem s (a + 1) -> in_mem s (a + 2) -> in_mem s (a + 3) ->
  loadw r a s =
    Ok tt (with_reg r
             (Z.lor (Z.lor (Z.lor (Z.shiftl (byte_at s a) 24)
                                  (Z.shiftl (byte_at s (a + 1)) 16))
                           (Z.shiftl (byte_at s (a + 2)) 8))
                    (byte_at s (a + 3))) s).
Proof.
  intros Hwf Hr Hmax H0 H1 H2 H3. unfold loadw.
  replace (a + 3 >? MAXVAL) with false
    by (symmetry; rewrite Z.gtb_ltb; apply Z.ltb_ge; lia).
  mem_run. reg_simp. byte_simp. now rewrite !with_reg_twice.
Qed.

Lemma be_bytes_join v :
  Z.lor (Z.lor (Z.lor (Z.shiftl (Z.land (Z.shiftr v 24) 0xff) 24)
                      (Z.shiftl (Z.land (Z.shiftr v 16) 0xff) 16))
               (Z.shiftl (Z.land (Z.shiftr v 8) 0xff) 8))
        (Z.land v 0xff)
  = v mod 2 ^ 32.
Proof.
  rewrite <- Z.land_ones by lia.
  change 0xff with (Z.ones 8).
  Z.bitblast.
Qed.

Lemma be_byte_of_low32 v k :
  0 <= k <= 24 ->
  Z.land (Z.shiftr v k) 0xff = (v mod 2 ^ 32) / 2 ^ k mod 2 ^ 8.
Proof.
  intros Hk.
  rewrite <- (Z.land_ones (v mod 2 ^ 32 / 2 ^ k)) by lia.
  rewrite <- Z.shiftr_div_pow2 by lia.
  rewrite <- Z.land_ones by lia.
  change 0xff with (Z.ones 8).
  Z.bitblast.
Qed.

(** C7 as stated fails for a register value outside [[0, 2^32)]: -1 is
    stored as [ff ff ff ff] and loaded back as [2^32 - 1]. *)
Lemma savew_loadw_loses_minus_one :
  reg st_minus_one 6 = -1 /\
  exists s1 s2,
    savew 6 0 st_minus_one = Ok tt s1
    /\ loadw 7 0 s1 = Ok tt s2
    /\ reg s2 7 = 4294967295
    /\ reg s2 7 <> reg st_minus_one 6.
Proof.
  split; [reflexivity|].
  eexists _, _. split; [vm_compute; reflexivity|].
  split; [vm_compute; reflexivity|].
  split; [reflexivity | discriminate].
Qed.

(** C7, amended. For an address [a >= 0] with [a + 3 <= MAXVAL] and
    [a + 3] inside memory, [savew] of a register holding [v] at [a]
    followed by [loadw] from [a] loads [v mod 2^32], the low 32 bits of
    [v], which is [v] itself when [0 <= v < 2^32]; the bytes written at
    [a .. a+3] are the big-endian bytes of the low 32 bits of [v]. *)
Theorem savew_loadw_roundtrip_low32 (s : CPU) (r r' a : Z) :
  wf s -> valid_reg r -> valid_reg r' ->
  0 <= a -> a + 3 <= MAXVAL -> a + 3 < Z.of_nat (length (memory s)) ->
  let v := reg s r in
  exists s1 s2,
    savew r a s = Ok tt s1
    /\ loadw r' a s1 = Ok tt s2
    /\ reg s2 r' = v mod 2 ^ 32
    /\ (0 <= v < 2 ^ 32 -> reg s2 r' = v)
    /\ byte_at s1 a = (v mod 2 ^ 32) / 2 ^ 24 mod 2 ^ 8
    /\ byte_at s1 (a + 1) = (v mod 2 ^ 32) / 2 ^ 16 mod 2 ^ 8
    /\ byte_at s1 (a + 2) = (v mod 2 ^ 32) / 2 ^ 8 mod 2 ^ 8
    /\ byte_at s1 (a + 3) = (v mod 2 ^ 32) mod 2 ^ 8.
Proof.
  intros Hwf Hr Hr' Ha Hmax Hlen v.
  assert (H0 : in_mem s a) by (unfold in_mem; lia).
  assert (H1 : in_mem s (a + 1)) by (unfold in_mem; lia).
  assert (H2 : in_mem s (a + 2)) by (unfold in_mem; lia).
  assert (H3 : in_mem s (a + 3)) by (unfold in_mem; lia).
  eexists _, _.
  split; [now apply savew_ok|].
  split; [apply loadw_ok; cpu_side|].
  byte_simp. reg_simp. fold v.
  rewrite be_bytes_join.
  split; [reflexivity|].
  split; [intros Hv; now apply Z.mod_small|].
  rewrite <- (be_byte_of_low32 v 24), <- (be_byte_of_low32 v 16),
    <- (be_byte_of_low32 v 8) by lia.
  repeat split.
  change (Z.land v 255) with (Z.land (Z.shiftr v 0) 255).
  rewrite (be_byte_of_low32 v 0) by lia.
  now rewrite Z.pow_0_r, Z.div_1_r.
Qed.

Lemma savew_loadw_roundtrip_witness :
  exists s1 s2,
    savew 6 4 st_minus_one = Ok tt s1
    /\ loadw 7 4 s1 = Ok tt s2
    /\ reg s2 7 = 2 ^ 32 - 1
    /\ byte_at s1 4 = 255 /\ byte_at s1 7 = 255.
Proof.
  destruct (savew_loadw_roundtrip_low32 st_minus_one 6 7 4)
    as [s1 [s2 [Hs [Hl [Hv [_ [Hb0 [_ [_ Hb3]]]]]]]]];
    [ reflexivity
    | unfold valid_reg, REG_RESVD; lia
    | unfold valid_reg, REG_RESVD; lia
    | lia
    | unfold MAXVAL; lia
    | simpl; lia
    | ].
  exists s1, s2. split; [exact Hs|]. split; [exact Hl|].
  split; [exact Hv|]. split; [exact Hb0 | exact Hb3].
Defined.

(** ** The register check of the decoder *)

Lemma check_args_reg_bound arg :
  check_args [(IA_REG, arg)] [] =
    if arg >? 0x20 then None else Some [arg].
Proof. reflexivity. Qed.

(** The loop refuses the whole instruction as soon as one register
    operand exceeds [REG_RESVD]. *)
Lemma check_args_refuses l :
  forall acc arg,
    In (IA_REG, arg) l -> arg > REG_RESVD -> check_args l acc = None.
Proof.
  induction l as [|[ty a] l IH]; intros acc arg Hin Hgt; [contradiction|].
  destruct Hin as [[= -> ->] | Hin].
  - cbn [check_args].
    now replace (arg >? REG_RESVD) with true
      by (symmetry; rewrite Z.gtb_ltb; apply Z.ltb_lt; lia).
  - cbn [check_args]. destruct ty; try now apply (IH _ arg).
    destruct (a >? REG_RESVD); [reflexivity | now apply (IH _ arg)].
Qed.

(** It lets every register operand up to [REG_RESVD] itself through. *)
Lemma check_args_accepts l :
  forall acc,
    (forall arg, In (IA_REG, arg) l -> arg <= REG_RESVD) ->
    exists arglist, check_args l acc = Some arglist.
Proof.
  induction l as [|[ty a] l IH]; intros acc Hall; [now exists acc|].
  assert (Hl : forall arg, In (IA_REG, arg) l -> arg <= REG_RESVD)
    by (intros arg Hin; apply Hall; now right).
  cbn [check_args]. destruct ty; try now apply IH.
  replace (a >? REG_RESVD) with false; [now apply IH|].
  symmetry. rewrite Z.gtb_ltb. apply Z.ltb_ge. apply Hall. now left.
Qed.

(** C5 (the code departs from it). The decoder refuses a register operand
    only above [REG_RESVD = 0x20]: [loadwi 0x20, 7] is dispatched, raises
    no trap and writes 7 to the reserved register, while [loadwi 0x21, 7]
    takes the ILL trap. *)
Theorem decode_accepts_register_0x20 :
  (exists s', decode_next_instr st_loadwi_resvd = Ok tt s'
     /\ reg s' REG_RESVD = 7 /\ reg s' REG_TRAP = 0 /\ reg s' REG_PC = 16)
  /\ check_args [(IA_REG, 0x20)] [] = Some [0x20]
  /\ (exists s', decode_next_instr st_loadwi_0x21 = Ok tt s'
     /\ reg s' REG_RESVD = 0 /\ reg s' REG_TRAP = 1
     /\ reg s' REG_PC = TRAP_ILL).
Proof.
  split; [|split; [reflexivity|]].
  - eexists. split; [vm_compute; reflexivity|]. repeat split.
  - eexists. split; [vm_compute; reflexivity|]. repeat split.
Qed.

(** ** Outcomes of composite code *)

Section Wp.
Context {A B : Type}.

Lemma wp_bind (m : M A) (k : A -> M B) s Q E :
  wp m s (fun a s' => wp (k a) s' Q E) E -> wp (bind m k) s Q E.
Proof. unfold wp, bind. destruct (m s); auto. Qed.

Lemma wp_pure (a : A) s (Q : A -> CPU -> Prop) E : Q a s -> wp (pure a) s Q E.
Proof. auto. Qed.

Lemma wp_raise e s (Q : A -> CPU -> Prop) (E : exn -> Prop) :
  E e -> wp (raise e) s Q E.
Proof. auto. Qed.

Lemma wp_eq (m : M A) s a s' (Q : A -> CPU -> Prop) E :
  m s = Ok a s' -> Q a s' -> wp m s Q E.
Proof. unfold wp. intros H HQ. now rewrite H. Qed.

Lemma wp_ok (m : M A) s a s' (Q : A -> CPU -> Prop) E :
  wp m s Q E -> m s = Ok a s' -> Q a s'.
Proof. unfold wp. intros H Hm. now rewrite Hm in H. Qed.
End Wp.

Lemma wp_get_reg i s (Q : Z -> CPU -> Prop) E :
  wf s -> valid_reg i -> Q (reg s i) s -> wp (get_reg i) s Q E.
Proof. intros. eapply wp_eq; [now apply get_reg_ok | assumption]. Qed.

Lemma wp_set_reg i v s (Q : unit -> CPU -> Prop) E :
  wf s -> valid_reg i -> Q tt (with_reg i v s) -> wp (set_reg i v) s Q E.
Proof. intros. eapply wp_eq; [now apply set_reg_ok | assumption]. Qed.

Lemma mem_hit_dec s a : mem_hit s a \/ ~ mem_hit s a.
Proof. unfold mem_hit. lia. Qed.

Lemma wp_mem_get a s (Q : Z -> CPU -> Prop) (E : exn -> Prop) :
  (mem_hit s a -> Q (byte_at s (mem_pos s a)) s) ->
  (~ mem_hit s a -> E IndexError) ->
  wp (mem_get a) s Q E.
Proof.
  intros Hin Hout. unfold wp.
  destruct (mem_hit_dec s a) as [H | H].
  - rewrite mem_get_hit by assumption. now apply Hin.
  - rewrite mem_get_out by assumption. now apply Hout.
Qed.

Lemma wp_mem_set a v s (Q : unit -> CPU -> Prop) (E : exn -> Prop) :
  (mem_hit s a -> Q tt (with_byte (mem_pos s a) v s)) ->
  (~ mem_hit s a -> E IndexError) ->
  wp (mem_set a v) s Q E.
Proof.
  intros Hin Hout. unfold wp.
  destruct (mem_hit_dec s a) as [H | H].
  - rewrite mem_set_hit by assumption. now apply Hin.
  - rewrite mem_set_out by assumption. now apply Hout.
Qed.

Lemma wp_py_shl a n s (Q : Z -> CPU -> Prop) (E : exn -> Prop) :
  (n < 0 -> E ValueError) ->
  (0 <= n -> a <> 0 -> shl_digits a n > MAX_LONG_DIGITS -> E OverflowError) ->
  (0 <= n -> a = 0 \/ shl_digits a n <= MAX_LONG_DIGITS ->
   Q (Z.shiftl a n) s) ->
  wp (py_shl a n) s Q E.
Proof.
  intros Hneg Hover Hfit. unfold wp, py_shl.
  destruct (Z.ltb_spec n 0) as [Hn | Hn]; [now apply Hneg|].
  destruct (Z.eqb_spec a 0) as [-> | Ha].
  { cbn. rewrite <- (Z.shiftl_0_l n). apply Hfit; [assumption | now left]. }
  destruct (Z.gtb_spec (shl_digits a n) MAX_LONG_DIGITS) as [Hgt | Hle].
  - apply Hover; (assumption || lia).
  - apply Hfit; [assumption | right; lia].
Qed.

Lemma wp_trap v s (Q : unit -> CPU -> Prop) E :
  wf s -> Q tt (enter (trap_vector s v) s) -> wp (trap v) s Q E.
Proof. intros. eapply wp_eq; [now apply trap_ok | assumption]. Qed.

Lemma wp_set_event b s (Q : unit -> CPU -> Prop) E :
  Q tt (with_event b s) -> wp (set_intr_event b) s Q E.
Proof. auto. Qed.

Lemma wp_set_mask b s (Q : unit -> CPU -> Prop) E :
  Q tt (with_mask b s) -> wp (set_intr_mask b) s Q E.
Proof. auto. Qed.

Lemma wp_set_pending b s (Q : unit -> CPU -> Prop) E :
  Q tt (with_pending b s) -> wp (set_intr_pending b) s Q E.
Proof. auto. Qed.

Lemma wp_get_event s (Q : bool -> CPU -> Prop) E :
  Q (intr_event s) s -> wp get_intr_event s Q E.
Proof. auto. Qed.

Lemma wp_get_mask s (Q : bool -> CPU -> Prop) E :
  Q (intr_mask s) s -> wp get_intr_mask s Q E.
Proof. auto. Qed.

Lemma wp_get_pending s (Q : bool -> CPU -> Prop) E :
  Q (intr_pending s) s -> wp get_intr_pending s Q E.
Proof. auto. Qed.

Ltac head_of t :=
  lazymatch t with
  | ?f _ => head_of f
  | _ => t
  end.

(** One step of the outcome calculus on the code at the head of the
    goal; conditions are split with their equations kept. *)
Ltac wp_step :=
  lazymatch goal with
  | |- wp (bind _ _) _ _ _ => apply wp_bind
  | |- wp (pure _) _ _ _ => apply wp_pure
  | |- wp (raise _) _ _ _ => apply wp_raise
  | |- wp (get_reg _) _ _ _ => apply wp_get_reg; [cpu_side | cpu_side |]
  | |- wp (set_reg _ _) _ _ _ => apply wp_set_reg; [cpu_side | cpu_side |]
  | |- wp (mem_get _) _ _ _ => apply wp_mem_get; intros ?
  | |- wp (mem_set _ _) _ _ _ => apply wp_mem_set; intros ?
  | |- wp (trap _) _ _ _ => apply wp_trap; [cpu_side |]
  | |- wp (set_intr_event _) _ _ _ => apply wp_set_event
  | |- wp (set_intr_mask _) _ _ _ => apply wp_set_mask
  | |- wp dsi _ _ _ => apply wp_set_mask
  | |- wp (set_intr_pending _) _ _ _ => apply wp_set_pending
  | |- wp get_intr_event _ _ _ => apply wp_get_event
  | |- wp get_intr_mask _ _ _ => apply wp_get_mask
  | |- wp get_intr_pending _ _ _ => apply wp_get_pending
  | |- wp (if ?c then _ else _) _ _ _ => destruct c eqn:?
  | |- wp (let _ := _ in _) _ _ _ => cbv zeta
  | |- wp (jmp _) _ _ _ => unfold jmp, jmp_with
  | |- wp (py_shl _ _) _ _ _ => apply wp_py_shl; intros
  | |- wp (py_shr _ _) _ _ _ => unfold py_shr
  | |- wp ?m _ _ _ => let h := head_of m in unfold h
  end; cbv beta.

Ltac wp_run := repeat wp_step.

(** ** Values in the signed 33-bit range *)

Lemma in_range_sign x :
  in_range x <-> Z.shiftr x 32 = 0 \/ Z.shiftr x 32 = -1.
Proof.
  unfold in_range, MINVAL, MAXVAL. rewrite Z.shiftr_div_pow2 by lia.
  pose proof (Z.mul_div_le x (2 ^ 32) eq_refl).
  pose proof (Z.mul_succ_div_gt x (2 ^ 32) eq_refl).
  lia.
Qed.

Lemma in_range_land a b : in_range a -> in_range b -> in_range (Z.land a b).
Proof.
  rewrite !in_range_sign, Z.shiftr_land.
  intros [-> | ->] [-> | ->]; auto.
Qed.

Lemma in_range_lor a b : in_range a -> in_range b -> in_range (Z.lor a b).
Proof.
  rewrite !in_range_sign, Z.shiftr_lor.
  intros [-> | ->] [-> | ->]; auto.
Qed.

Lemma in_range_lxor a b : in_range a -> in_range b -> in_range (Z.lxor a b).
Proof.
  rewrite !in_range_sign, Z.shiftr_lxor.
  intros [-> | ->] [-> | ->]; auto.
Qed.

Lemma in_range_lnot a : in_range a -> in_range (Z.lnot a).
Proof. unfold in_range, MINVAL, MAXVAL, Z.lnot. lia. Qed.

Lemma in_range_shiftr a n : in_range a -> 0 <= n -> in_range (Z.shiftr a n).
Proof.
  unfold in_range, MINVAL, MAXVAL. intros Ha Hn.
  rewrite Z.shiftr_div_pow2 by assumption.
  assert (Hk : 0 < 2 ^ n) by (apply Z.pow_pos_nonneg; lia).
  pose proof (Z.mul_div_le a (2 ^ n) Hk).
  pose proof (Z.mul_succ_div_gt a (2 ^ n) Hk).
  nia.
Qed.

Lemma in_range_mod_maxval x : in_range (x mod MAXVAL).
Proof.
  pose proof (Z.mod_pos_bound x MAXVAL eq_refl).
  unfold in_range, MINVAL, MAXVAL in *. lia.
Qed.

Lemma in_range_mod_minval x : in_range (x mod MINVAL).
Proof.
  pose proof (Z.mod_neg_bound x MINVAL eq_refl).
  unfold in_range, MINVAL, MAXVAL in *. lia.
Qed.

Lemma in_range_int_of_bool b : in_range (int_of_bool b).
Proof. destruct b; unfold in_range, MINVAL, MAXVAL; simpl; lia. Qed.

Lemma in_range_div a b :
  in_range a -> in_range b -> b <> 0 -> ~ (a = MINVAL /\ b = -1) ->
  in_range (a / b).
Proof.
  unfold in_range, MINVAL, MAXVAL. intros Ha Hb Hz Hc.
  destruct (Z.lt_trichotomy b 0) as [Hneg | [? | Hpos]]; [|lia|].
  - pose proof (Z.mul_div_ge a b Hneg).
    pose proof (Z.mul_succ_div_lt a b Hneg).
    nia.
  - pose proof (Z.mul_div_le a b Hpos).
    pose proof (Z.mul_succ_div_gt a b Hpos).
    nia.
Qed.

Lemma is_byte_land_ff v : is_byte (Z.land v 0xff).
Proof.
  change (Z.land v 0xff) with (Z.land v (Z.ones 8)).
  unfold is_byte. rewrite Z.land_ones by lia.
  pose proof (Z.mod_pos_bound v (2 ^ 8) eq_refl) as H.
  change (2 ^ 8) with 256 in *. lia.
Qed.

Lemma is_byte_in_range v : is_byte v -> in_range v.
Proof. unfold is_byte, in_range, MINVAL, MAXVAL. lia. Qed.

Lemma is_word_in_range v : is_word v -> in_range v.
Proof. unfold is_word, in_range, MINVAL, MAXVAL. lia. Qed.

Lemma is_word_high x : is_word x <-> Z.shiftr x 32 = 0.
Proof.
  unfold is_word. rewrite Z.shiftr_div_pow2 by lia.
  pose proof (Z.mul_div_le x (2 ^ 32) eq_refl).
  pose proof (Z.mul_succ_div_gt x (2 ^ 32) eq_refl).
  lia.
Qed.

Lemma is_word_lor a b : is_word a -> is_word b -> is_word (Z.lor a b).
Proof. rewrite !is_word_high, Z.shiftr_lor. now intros -> ->. Qed.

Lemma is_word_shiftl_byte b k :
  is_byte b -> 0 <= k <= 24 -> is_word (Z.shiftl b k).
Proof.
  unfold is_byte, is_word. intros Hb Hk.
  rewrite Z.shiftl_mul_pow2 by lia.
  assert (0 < 2 ^ k) by (apply Z.pow_pos_nonneg; lia).
  assert (2 ^ k <= 2 ^ 24) by (apply Z.pow_le_mono_r; lia).
  change (2 ^ 24) with 16777216 in *. change (2 ^ 32) with 4294967296.
  nia.
Qed.

Lemma is_byte_is_word b : is_byte b -> is_word b.
Proof. unfold is_byte, is_word. change (2 ^ 32) with 4294967296. lia. Qed.

Lemma is_word_join b0 b1 b2 b3 :
  is_byte b0 -> is_byte b1 -> is_byte b2 -> is_byte b3 ->
  is_word (Z.lor (Z.lor (Z.lor (Z.shiftl b0 24) (Z.shiftl b1 16))
                        (Z.shiftl b2 8)) b3).
Proof.
  intros H0 H1 H2 H3.
  repeat apply is_word_lor;
    (apply is_word_shiftl_byte; [assumption | lia])
    || now apply is_byte_is_word.
Qed.

(** ** Invariants under state updates *)

Lemma in_range_reg s i : regs_ok s -> in_range (reg s i).
Proof.
  unfold regs_ok, reg. intros H.
  destruct (nth_lookup_or_length (registers s) (Z.to_nat i) 0) as [Hl | Hl].
  - eapply Forall_lookup_1; eassumption.
  - rewrite nth_overflow by lia. unfold in_range, MINVAL, MAXVAL. lia.
Qed.

Lemma regs_ok_with_reg i v s :
  regs_ok s -> in_range v -> regs_ok (with_reg i v s).
Proof. unfold regs_ok, with_reg. simpl. intros. now apply Forall_insert. Qed.

Lemma regs_ok_with_byte a v s : regs_ok s -> regs_ok (with_byte a v s).
Proof. auto. Qed.

Lemma regs_ok_with_event b s : regs_ok s -> regs_ok (with_event b s).
Proof. auto. Qed.

Lemma regs_ok_with_mask b s : regs_ok s -> regs_ok (with_mask b s).
Proof. auto. Qed.

Lemma regs_ok_with_pending b s : regs_ok s -> regs_ok (with_pending b s).
Proof. auto. Qed.

Lemma in_range_trap_vector s v : in_range v -> in_range (trap_vector s v).
Proof.
  intros Hv. unfold trap_vector. destruct (_ || _); [|assumption].
  unfold in_range, MINVAL, MAXVAL, TRAP_DTRAP. lia.
Qed.

Lemma regs_ok_enter vec s : regs_ok s -> in_range vec -> regs_ok (enter vec s).
Proof.
  intros Hs Hv. unfold enter.
  apply regs_ok_with_event, regs_ok_with_reg; [|assumption].
  apply regs_ok_with_reg; [|now apply in_range_reg].
  apply regs_ok_with_reg; [assumption|].
  unfold in_range, MINVAL, MAXVAL. lia.
Qed.

Lemma is_byte_byte_at s a : mem_ok s -> is_byte (byte_at s a).
Proof.
  unfold mem_ok, byte_at. intros [H _].
  destruct (nth_lookup_or_length (memory s) (Z.to_nat a) 0) as [Hl | Hl].
  - eapply Forall_lookup_1; eassumption.
  - rewrite nth_overflow by lia. unfold is_byte. lia.
Qed.

Lemma is_word_word_at s a : mem_ok s -> is_word (word_at s a).
Proof.
  intros H. unfold word_at. apply is_word_join; now apply is_byte_byte_at.
Qed.

Lemma is_word_word_index s a : mem_ok s -> is_word (word_index s a).
Proof.
  intros H. unfold word_index. apply is_word_join; now apply is_byte_byte_at.
Qed.

Lemma mem_ok_with_reg i v s : mem_ok s -> mem_ok (with_reg i v s).
Proof. auto. Qed.

Lemma mem_ok_with_event b s : mem_ok s -> mem_ok (with_event b s).
Proof. auto. Qed.

Lemma mem_ok_with_mask b s : mem_ok s -> mem_ok (with_mask b s).
Proof. auto. Qed.

Lemma mem_ok_with_pending b s : mem_ok s -> mem_ok (with_pending b s).
Proof. auto. Qed.

Lemma mem_ok_with_byte a v s :
  mem_ok s -> is_byte v -> mem_ok (with_byte a v s).
Proof.
  unfold mem_ok, with_byte. simpl. intros [Hb Hl] Hv.
  split; [now apply Forall_insert | now rewrite length_insert].
Qed.

Lemma mem_ok_enter vec s : mem_ok s -> mem_ok (enter vec s).
Proof. auto. Qed.

(** ** Outcomes of word accesses *)

Lemma in_mem_between s a k :
  in_mem s a -> in_mem s (a + 3) -> 0 <= k <= 3 -> in_mem s (a + k).
Proof. unfold in_mem. lia. Qed.

Lemma loadw_trap r a s :
  wf s -> a + 3 > MAXVAL ->
  loadw r a s = Ok tt (enter (trap_vector s TRAP_ILL) s).
Proof.
  intros Hwf Ha. unfold loadw.
  replace (a + 3 >? MAXVAL) with true
    by (symmetry; rewrite Z.gtb_ltb; apply Z.ltb_lt; lia).
  now apply trap_ok.
Qed.

Lemma savew_trap r a s :
  wf s -> a + 3 > MAXVAL ->
  savew r a s = Ok tt (enter (trap_vector s TRAP_ILL) s).
Proof.
  intros Hwf Ha. unfold savew.
  replace (a + 3 >? MAXVAL) with true
    by (symmetry; rewrite Z.gtb_ltb; apply Z.ltb_lt; lia).
  now apply trap_ok.
Qed.

Lemma mem_hit_between s a k :
  mem_hit s a -> mem_hit s (a + 3) -> 0 <= k <= 3 -> mem_hit s (a + k).
Proof. unfold mem_hit. lia. Qed.

Lemma word_index_in_mem s a :
  in_mem s a -> in_mem s (a + 3) -> word_index s a = word_at s a.
Proof.
  intros H0 H3. unfold word_index, word_at.
  rewrite (mem_pos_in_mem s a), (mem_pos_in_mem s (a + 1)),
    (mem_pos_in_mem s (a + 2)), (mem_pos_in_mem s (a + 3));
    (reflexivity || (unfold in_mem in *; lia)).
Qed.

Lemma loadw_out r a s :
  wf s -> valid_reg r -> a + 3 <= MAXVAL ->
  ~ (mem_hit s a /\ mem_hit s (a + 3)) ->
  loadw r a s = Raise IndexError.
Proof.
  intros Hwf Hr Ha Hout.
  assert (H : wp (loadw r a) s (fun _ _ => False) (fun e => e = IndexError)).
  { unfold loadw.
    replace (a + 3 >? MAXVAL) with false
      by (symmetry; rewrite Z.gtb_ltb; apply Z.ltb_ge; lia).
    wp_run; try reflexivity.
    unfold mem_hit in *. cbn [memory with_reg] in *. lia. }
  unfold wp in H. destruct (loadw r a s); [contradiction | now subst].
Qed.

Lemma savew_out r a s :
  wf s -> valid_reg r -> a + 3 <= MAXVAL ->
  ~ (mem_hit s a /\ mem_hit s (a + 3)) ->
  savew r a s = Raise IndexError.
Proof.
  intros Hwf Hr Ha Hout.
  assert (H : wp (savew r a) s (fun _ _ => False) (fun e => e = IndexError)).
  { unfold savew.
    replace (a + 3 >? MAXVAL) with false
      by (symmetry; rewrite Z.gtb_ltb; apply Z.ltb_ge; lia).
    wp_run; try reflexivity.
    unfold mem_hit in *. cbn [memory with_reg with_byte] in *.
    rewrite ?length_insert in *. lia. }
  unfold wp in H. destruct (savew r a s); [contradiction | now subst].
Qed.

(** A word access whose four indices the memory accepts, negative ones
    included *)
Lemma loadw_hit r a s :
  wf s -> valid_reg r -> a + 3 <= MAXVAL ->
  mem_hit s a -> mem_hit s (a + 3) ->
  loadw r a s = Ok tt (with_reg r (word_index s a) s).
Proof.
  intros Hwf Hr Hmax H0 H3.
  pose proof (mem_hit_between s a 1 H0 H3 ltac:(lia)) as H1.
  pose proof (mem_hit_between s a 2 H0 H3 ltac:(lia)) as H2.
  unfold loadw, word_index.
  replace (a + 3 >? MAXVAL) with false
    by (symmetry; rewrite Z.gtb_ltb; apply Z.ltb_ge; lia).
  repeat first
    [ cpu_step
    | rewrite bind_mem_get_hit by cpu_side; cbv beta
    | rewrite mem_get_hit by cpu_side ].
  reg_simp. rewrite !mem_pos_with_reg, !byte_at_with_reg.
  now rewrite !with_reg_twice.
Qed.

Lemma savew_hit r a s :
  wf s -> valid_reg r -> a + 3 <= MAXVAL ->
  mem_hit s a -> mem_hit s (a + 3) ->
  savew r a s =
    Ok tt (with_byte (mem_pos s (a + 3)) (Z.land (reg s r) 0xff)
          (with_byte (mem_pos s (a + 2)) (Z.land (Z.shiftr (reg s r) 8) 0xff)
          (with_byte (mem_pos s (a + 1))
             (Z.land (Z.shiftr (reg s r) 16) 0xff)
          (with_byte (mem_pos s a)
             (Z.land (Z.shiftr (reg s r) 24) 0xff) s)))).
Proof.
  intros Hwf Hr Hmax H0 H3.
  pose proof (mem_hit_between s a 1 H0 H3 ltac:(lia)) as H1.
  pose proof (mem_hit_between s a 2 H0 H3 ltac:(lia)) as H2.
  unfold savew.
  replace (a + 3 >? MAXVAL) with false
    by (symmetry; rewrite Z.gtb_ltb; apply Z.ltb_ge; lia).
  repeat first
    [ cpu_step
    | rewrite bind_mem_set_hit by cpu_side; cbv beta
    | rewrite mem_set_hit by cpu_side ].
  now rewrite !mem_pos_with_byte.
Qed.

Lemma loadw_word r a s :
  wf s -> valid_reg r -> a + 3 <= MAXVAL ->
  in_mem s a -> in_mem s (a + 3) ->
  loadw r a s = Ok tt (with_reg r (word_at s a) s).
Proof.
  intros Hwf Hr Ha H0 H3. unfold word_at.
  apply loadw_ok; try assumption.
  - apply (in_mem_between s a 1); (assumption || lia).
  - apply (in_mem_between s a 2); (assumption || lia).
Qed.

Lemma savew_word r a s :
  wf s -> valid_reg r -> a + 3 <= MAXVAL ->
  in_mem s a -> in_mem s (a + 3) ->
  savew r a s =
    Ok tt (with_byte (a + 3) (Z.land (reg s r) 0xff)
          (with_byte (a + 2) (Z.land (Z.shiftr (reg s r) 8) 0xff)
          (with_byte (a + 1) (Z.land (Z.shiftr (reg s r) 16) 0xff)
          (with_byte a (Z.land (Z.shiftr (reg s r) 24) 0xff) s)))).
Proof.
  intros Hwf Hr Ha H0 H3.
  apply savew_ok; try assumption.
  - apply (in_mem_between s a 1); (assumption || lia).
  - apply (in_mem_between s a 2); (assumption || lia).
Qed.

Lemma wp_loadw r a s (Q : unit -> CPU -> Prop) (E : exn -> Prop) :
  wf s -> valid_reg r ->
  (a + 3 > MAXVAL -> Q tt (enter (trap_vector s TRAP_ILL) s)) ->
  (a + 3 <= MAXVAL -> mem_hit s a -> mem_hit s (a + 3) ->
   Q tt (with_reg r (word_index s a) s)) ->
  (a + 3 <= MAXVAL -> ~ (mem_hit s a /\ mem_hit s (a + 3)) -> E IndexError) ->
  wp (loadw r a) s Q E.
Proof.
  intros Hwf Hr Htrap Hin Hout. unfold wp.
  destruct (Z_gt_dec (a + 3) MAXVAL) as [Hgt | Hle].
  { rewrite loadw_trap by assumption. auto. }
  assert (Hdec : (mem_hit s a /\ mem_hit s (a + 3))
                 \/ ~ (mem_hit s a /\ mem_hit s (a + 3)))
    by (unfold mem_hit; lia).
  destruct Hdec as [[H0 H3] | Hno].
  - rewrite loadw_hit by (assumption || lia). apply Hin; (assumption || lia).
  - rewrite loadw_out by (assumption || lia). apply Hout; (assumption || lia).
Qed.

Lemma wp_savew r a s (Q : unit -> CPU -> Prop) (E : exn -> Prop) :
  wf s -> valid_reg r ->
  (a + 3 > MAXVAL -> Q tt (enter (trap_vector s TRAP_ILL) s)) ->
  (a + 3 <= MAXVAL -> mem_hit s a -> mem_hit s (a + 3) ->
   Q tt (with_byte (mem_pos s (a + 3)) (Z.land (reg s r) 0xff)
        (with_byte (mem_pos s (a + 2)) (Z.land (Z.shiftr (reg s r) 8) 0xff)
        (with_byte (mem_pos s (a + 1))
           (Z.land (Z.shiftr (reg s r) 16) 0xff)
        (with_byte (mem_pos s a)
           (Z.land (Z.shiftr (reg s r) 24) 0xff) s))))) ->
  (a + 3 <= MAXVAL -> ~ (mem_hit s a /\ mem_hit s (a + 3)) -> E IndexError) ->
  wp (savew r a) s Q E.
Proof.
  intros Hwf Hr Htrap Hin Hout. unfold wp.
  destruct (Z_gt_dec (a + 3) MAXVAL) as [Hgt | Hle].
  { rewrite savew_trap by assumption. auto. }
  assert (Hdec : (mem_hit s a /\ mem_hit s (a + 3))
                 \/ ~ (mem_hit s a /\ mem_hit s (a + 3)))
    by (unfold mem_hit; lia).
  destruct Hdec as [[H0 H3] | Hno].
  - rewrite savew_hit by (assumption || lia). apply Hin; (assumption || lia).
  - rewrite savew_out by (assumption || lia). apply Hout; (assumption || lia).
Qed.

(** ** The decoder's word reads *)

Lemma wp_fetch_word s (Q : Z -> CPU -> Prop) (E : exn -> Prop) :
  wf s ->
  (reg s REG_PC + 3 > MAXVAL ->
   Q (reg s REG_RESVD)
     (with_reg REG_PC (trap_vector s TRAP_ILL + 4)
        (enter (trap_vector s TRAP_ILL) s))) ->
  (reg s REG_PC + 3 <= MAXVAL ->
   mem_hit s (reg s REG_PC) -> mem_hit s (reg s REG_PC + 3) ->
   Q (word_index s (reg s REG_PC))
     (with_reg REG_PC (reg s REG_PC + 4)
        (with_reg REG_RESVD (word_index s (reg s REG_PC)) s))) ->
  (reg s REG_PC + 3 <= MAXVAL ->
   ~ (mem_hit s (reg s REG_PC) /\ mem_hit s (reg s REG_PC + 3)) ->
   E IndexError) ->
  wp fetch_word s Q E.
Proof.
  intros Hwf Htrap Hin Hout. unfold fetch_word.
  apply wp_bind, wp_get_reg; [cpu_side | cpu_side |].
  apply wp_bind, wp_loadw; [cpu_side | cpu_side | ..].
  - intros Hgt. wp_run.
    rewrite reg_enter_pc by assumption.
    rewrite (reg_enter_other _ _ REG_RESVD) by reg_side.
    now apply Htrap.
  - intros Hle H0 H3. wp_run. reg_simp. now apply Hin.
  - intros Hle Hno. now apply Hout.
Qed.

(** ** Table lookup *)

Lemma instrs_get_cases opc s :
  opc < Z.of_nat (length INSTRS) ->
  (instrs_get opc s = Raise IndexError /\ selected_fn opc = None)
  \/ exists tys fn,
       In (tys, fn) INSTRS
       /\ instrs_get opc s = Ok (tys, fn) s
       /\ selected_fn opc = Some fn.
Proof.
  intros Hlt. unfold instrs_get, selected_fn.
  replace (opc >=? Z.of_nat (length INSTRS)) with false
    by (symmetry; rewrite Z.geb_leb; apply Z.leb_gt; lia).
  destruct (py_index (length INSTRS) opc) as [n|]; [|now left].
  destruct (INSTRS !! n) as [[tys fn]|] eqn:Hn; [|now left].
  right. exists tys, fn. split; [|split; reflexivity].
  apply list_elem_of_In. eapply list_elem_of_lookup_2. exact Hn.
Qed.

Lemma selected_fn_none_high opc :
  Z.of_nat (length INSTRS) <= opc -> selected_fn opc = None.
Proof.
  intros H. unfold selected_fn.
  now replace (opc >=? Z.of_nat (length INSTRS)) with true
    by (symmetry; rewrite Z.geb_leb; apply Z.leb_le; lia).
Qed.

Lemma valid_reg_checked a : is_word a -> a <= REG_RESVD -> valid_reg a.
Proof. unfold is_word, valid_reg. lia. Qed.

(** Outcome of [dispatch], by cases on the table entry the opcode
    selects: [K] is what remains to prove of each entry. *)
Lemma wp_dispatch opc a1 a2 a3 s (Q : unit -> CPU -> Prop) (E : exn -> Prop) :
  wf s ->
  (selected_fn opc = None -> Z.of_nat (length INSTRS) <= opc ->
   Q tt (enter (trap_vector s TRAP_ILL) s)) ->
  (selected_fn opc = None -> opc < 0 -> E IndexError) ->
  (forall t1 t2 t3 fn,
     In ((t1, t2, t3), fn) INSTRS -> selected_fn opc = Some fn ->
     match check_args (combine [t1; t2; t3] [a1; a2; a3]) [] with
     | None => Q tt (enter (trap_vector s TRAP_ILL) s)
     | Some arglist => wp (call fn arglist) s Q E
     end) ->
  wp (dispatch opc a1 a2 a3) s Q E.
Proof.
  intros Hwf Hhigh Hlow Hentry. unfold dispatch.
  destruct (Z.geb_spec opc (Z.of_nat (length INSTRS))) as [Hge | Hlt].
  { apply wp_trap; [assumption|].
    apply Hhigh; [apply selected_fn_none_high|]; lia. }
  apply wp_bind.
  destruct (instrs_get_cases opc s Hlt)
    as [[Hraise Hnone] | [[[t1 t2] t3] [fn [Hin [Hget Hsel]]]]].
  - unfold wp. rewrite Hraise. apply Hlow; [assumption|].
    unfold instrs_get, py_index in Hraise.
    destruct (Z.leb_spec 0 opc); [|lia].
    exfalso.
    replace (opc <? Z.of_nat (length INSTRS)) with true in Hraise
      by (symmetry; apply Z.ltb_lt; lia).
    cbn [andb] in Hraise.
    destruct (lookup_lt_is_Some_2 INSTRS (Z.to_nat opc)) as [e He]; [lia|].
    rewrite He in Hraise. discriminate.
  - eapply wp_eq; [exact Hget|]. cbv beta iota.
    specialize (Hentry t1 t2 t3 fn Hin Hsel).
    destruct (check_args _ _); [assumption|].
    now apply wp_trap.
Qed.

(** ** Running one table entry *)

Ltac instr_step :=
  lazymatch goal with
  | |- wp (loadw _ _) _ _ _ =>
      apply wp_loadw;
      [cpu_side | cpu_side | intros ? | intros ? ? ? | intros ? ?]
  | |- wp (savew _ _) _ _ _ =>
      apply wp_savew;
      [cpu_side | cpu_side | intros ? | intros ? ? ? | intros ? ?]
  | |- wp _ _ _ _ => wp_step
  end.

Ltac instr_run := repeat instr_step.

(** Split the register checks of [check_args], keeping what each
    passed check says about its operand. *)
Ltac check_regs :=
  cbn [check_args combine app];
  repeat
    match goal with
    | |- context [?a >? REG_RESVD] =>
        destruct (Z.gtb_spec a REG_RESVD);
        [ | assert (valid_reg a) by (apply valid_reg_checked; assumption) ]
    end;
  cbv beta iota.

(** All entries of the table, one goal each *)
Ltac each_entry Hin :=
  unfold INSTRS in Hin; cbn [In] in Hin;
  repeat (destruct Hin as [Hin | Hin];
          [injection Hin as <- <- <- <- | ]);
  [ .. | contradiction ].

Ltac bool_hyps :=
  repeat
    match goal with
    | H : (_ <? _) = true |- _ => apply Z.ltb_lt in H
    | H : (_ <? _) = false |- _ => apply Z.ltb_ge in H
    | H : (_ =? _) = true |- _ => apply Z.eqb_eq in H
    | H : (_ =? _) = false |- _ => apply Z.eqb_neq in H
    end.

(** Range of the registers of a state built from updates *)
Ltac range_solve :=
  repeat
    lazymatch goal with
    | |- regs_ok (with_reg _ _ _) => apply regs_ok_with_reg
    | |- regs_ok (with_byte _ _ _) => apply regs_ok_with_byte
    | |- regs_ok (with_event _ _) => apply regs_ok_with_event
    | |- regs_ok (with_mask _ _) => apply regs_ok_with_mask
    | |- regs_ok (with_pending _ _) => apply regs_ok_with_pending
    | |- regs_ok (enter _ _) => apply regs_ok_enter
    | |- regs_ok _ => assumption
    | |- mem_ok (with_reg _ _ _) => apply mem_ok_with_reg
    | |- mem_ok (with_event _ _) => apply mem_ok_with_event
    | |- mem_ok (with_mask _ _) => apply mem_ok_with_mask
    | |- mem_ok (with_pending _ _) => apply mem_ok_with_pending
    | |- mem_ok (enter _ _) => apply mem_ok_enter
    | |- mem_ok (with_byte _ (Z.land _ 255) _) =>
        apply mem_ok_with_byte; [ | apply is_byte_land_ff ]
    | |- mem_ok _ => assumption
    | |- in_range (reg _ _) => apply in_range_reg
    | |- in_range (trap_vector _ _) => apply in_range_trap_vector
    | |- in_range (_ mod MAXVAL) => apply in_range_mod_maxval
    | |- in_range (_ mod MINVAL) => apply in_range_mod_minval
    | |- in_range (int_of_bool _) => apply in_range_int_of_bool
    | |- in_range (Z.land _ 255) => apply is_byte_in_range, is_byte_land_ff
    | |- in_range (Z.land _ _) => apply in_range_land
    | |- in_range (Z.lor _ _) => apply in_range_lor
    | |- in_range (Z.lxor _ _) => apply in_range_lxor
    | |- in_range (Z.lnot _) => apply in_range_lnot
    | |- in_range (Z.shiftr _ _) => apply in_range_shiftr; [ | lia ]
    | |- in_range (byte_at _ _) => apply is_byte_in_range, is_byte_byte_at
    | |- in_range (word_at _ _) => apply is_word_in_range, is_word_word_at
    | |- in_range (word_index _ _) =>
        apply is_word_in_range, is_word_word_index
    | |- in_range _ =>
        first [ assumption
              | apply is_word_in_range; assumption
              | unfold in_range, MINVAL, MAXVAL, TRAP_ILL, TRAP_DIV,
                  TRAP_INTR, TRAP_DTRAP; lia ]
    end.

Ltac reg_simp_enter :=
  repeat first
    [ rewrite reg_with_event
    | rewrite reg_with_mask
    | rewrite reg_with_pending
    | rewrite reg_with_byte
    | rewrite reg_with_reg_eq by cpu_side
    | rewrite reg_with_reg_ne by reg_side
    | rewrite reg_enter_pc by cpu_side
    | rewrite reg_enter_ret by cpu_side
    | rewrite reg_enter_trap by cpu_side
    | rewrite reg_enter_other by reg_side ].

(** [CARRY] or [TRAP] is 0 or 1 in a state built from updates *)
Ltac flag_solve :=
  unfold carry01, trap01 in *; reg_simp_enter;
  first [ assumption
        | now left
        | now right
        | match goal with
          | |- context [int_of_bool ?b] => destruct b; simpl; auto
          end ].

Lemma wp_conseq {A} (m : M A) s (Q Q' : A -> CPU -> Prop) (E : exn -> Prop) :
  wp m s Q E -> (forall a s', Q a s' -> Q' a s') -> wp m s Q' E.
Proof. unfold wp. destruct (m s); auto. Qed.

(** ** What one instruction preserves *)

Lemma dispatch_regs_ok opc a1 a2 a3 s :
  cpu_inv s -> is_word a1 -> is_word a2 -> is_word a3 ->
  selected_fn opc <> Some F_shl -> selected_fn opc <> Some F_shli ->
  ~ (selected_fn opc = Some F_div /\ reg s a1 = MINVAL /\ reg s a2 = -1) ->
  wp (dispatch opc a1 a2 a3) s (fun _ s' => regs_ok s') (fun _ => True).
Proof.
  intros (Hwf & Hregs & Hmem) H1 H2 H3 Hshl Hshli Hdiv.
  apply wp_dispatch; [assumption | intros; range_solve | trivial |].
  intros t1 t2 t3 fn Hin Hsel.
  each_entry Hin; check_regs; cbn [call]; instr_run; bool_hyps;
    try exact I; try congruence; try solve [range_solve].
  - apply regs_ok_with_reg; [|range_solve].
    apply regs_ok_with_reg; [assumption|].
    apply in_range_div; [range_solve | range_solve | assumption | tauto].
  - revert Heqb. reg_simp. intros Hnz.
    apply regs_ok_with_reg; [|range_solve].
    apply regs_ok_with_reg; [range_solve|].
    apply in_range_div; [range_solve | range_solve | assumption |].
    unfold is_word in H2. lia.
Qed.

Lemma dispatch_carry01 opc a1 a2 a3 s :
  wf s -> is_word a1 -> is_word a2 -> is_word a3 -> carry01 s ->
  (forall fn, selected_fn opc = Some fn ->
              ~ In REG_CARRY (dest_regs fn a1 a2 a3)) ->
  wp (dispatch opc a1 a2 a3) s (fun _ s' => carry01 s') (fun _ => True).
Proof.
  intros Hwf H1 H2 H3 Hc Hdest.
  apply wp_dispatch; [assumption | intros; flag_solve | trivial |].
  intros t1 t2 t3 fn Hin Hsel. specialize (Hdest fn Hsel).
  each_entry Hin; cbn [dest_regs In] in Hdest; check_regs; cbn [call];
    instr_run; try exact I; try solve [flag_solve].
Qed.

Lemma dispatch_trap01 opc a1 a2 a3 s :
  wf s -> is_word a1 -> is_word a2 -> is_word a3 -> trap01 s ->
  (forall fn, selected_fn opc = Some fn ->
              ~ In REG_TRAP (dest_regs fn a1 a2 a3)) ->
  wp (dispatch opc a1 a2 a3) s (fun _ s' => trap01 s') (fun _ => True).
Proof.
  intros Hwf H1 H2 H3 Hc Hdest.
  apply wp_dispatch; [assumption | intros; flag_solve | trivial |].
  intros t1 t2 t3 fn Hin Hsel. specialize (Hdest fn Hsel).
  each_entry Hin; cbn [dest_regs In] in Hdest; check_regs; cbn [call];
    instr_run; try exact I; try solve [flag_solve].
Qed.

(** ** What the four word reads preserve *)

Lemma fetch_word_inv s :
  cpu_inv s ->
  wp fetch_word s
    (fun w s' =>
       cpu_inv s'
       /\ (is_word (reg s REG_RESVD) \/ reg s REG_PC + 3 <= MAXVAL ->
           is_word w /\ is_word (reg s' REG_RESVD))
       /\ (reg s REG_PC + 3 > MAXVAL -> reg s' REG_PC + 3 <= MAXVAL)
       /\ (carry01 s -> carry01 s')
       /\ (trap01 s -> trap01 s'))
    (fun _ => True).
Proof.
  intros (Hwf & Hregs & Hmem).
  apply wp_fetch_word; [assumption | | | trivial].
  - intros Hgt.
    assert (Hv : trap_vector s TRAP_ILL = TRAP_ILL
                 \/ trap_vector s TRAP_ILL = TRAP_DTRAP).
    { unfold trap_vector. destruct (_ || _); auto. }
    split; [|split; [|split; [|split]]].
    + split; [cpu_side|]. split; [|range_solve].
      range_solve. destruct Hv as [-> | ->]; range_solve.
    + intros [Hw | Hle]; [|lia]. reg_simp_enter. auto.
    + intros _. reg_simp_enter.
      destruct Hv as [-> | ->]; unfold TRAP_ILL, TRAP_DTRAP, MAXVAL; lia.
    + intros Hc. flag_solve.
    + intros Ht. flag_solve.
  - intros Hle H0 H3.
    split; [|split; [|split; [|split]]].
    + split; [cpu_side|]. split; [|range_solve].
      range_solve. destruct Hmem as [_ Hlen].
      unfold mem_hit in *. unfold in_range, MINVAL, MAXVAL in *. lia.
    + intros _. reg_simp_enter. split; now apply is_word_word_index.
    + lia.
    + intros Hc. flag_solve.
    + intros Ht. flag_solve.
Qed.

Lemma fetch_inv s :
  cpu_inv s ->
  wp fetch s
    (fun i s' =>
       let '(opcode, op1, op2, op3) := i in
       cpu_inv s' /\ is_word op1 /\ is_word op2 /\ is_word op3
       /\ (carry01 s -> carry01 s') /\ (trap01 s -> trap01 s'))
    (fun _ => True).
Proof.
  intros Hinv. unfold fetch.
  apply wp_bind. eapply wp_conseq; [now apply fetch_word_inv|].
  intros opc s1 (Hinv1 & Hw1 & Hpc1 & Hc1 & Ht1). cbv beta.
  assert (Hpre : is_word (reg s1 REG_RESVD) \/ reg s1 REG_PC + 3 <= MAXVAL).
  { destruct (Z_gt_dec (reg s REG_PC + 3) MAXVAL) as [Hgt | Hle].
    - right. now apply Hpc1.
    - left. apply Hw1. right. lia. }
  apply wp_bind. eapply wp_conseq; [now apply fetch_word_inv|].
  intros a1 s2 (Hinv2 & Hw2 & _ & Hc2 & Ht2). cbv beta.
  destruct (Hw2 Hpre) as [Ha1 Hr2].
  apply wp_bind. eapply wp_conseq; [now apply fetch_word_inv|].
  intros a2 s3 (Hinv3 & Hw3 & _ & Hc3 & Ht3). cbv beta.
  destruct (Hw3 (or_introl Hr2)) as [Ha2 Hr3].
  apply wp_bind. eapply wp_conseq; [now apply fetch_word_inv|].
  intros a3 s4 (Hinv4 & Hw4 & _ & Hc4 & Ht4). cbv beta.
  destruct (Hw4 (or_introl Hr3)) as [Ha3 Hr4].
  apply wp_pure. do 4 (split; [assumption|]).
  split; [intros Hc; apply Hc4, Hc3, Hc2, Hc1, Hc
         | intros Ht; apply Ht4, Ht3, Ht2, Ht1, Ht].
Qed.

(** ** Register ranges and flags across one instruction *)

(** C8 as stated fails: from a fresh CPU (all registers 0) with register
    6 set to 1, [shli R6, 40, R7] leaves [2^40] in register 7;
    [loadwi CARRY, 5] leaves 5 in [CARRY]; [loadwi TRAP, 7] leaves 7 in
    [TRAP]. *)
Lemma decoded_instruction_can_leave_range :
  (regs_ok st_shli /\
   exists s', decode_next_instr st_shli = Ok tt s'
     /\ reg s' 7 = 2 ^ 40 /\ ~ in_range (reg s' 7))
  /\ (regs_ok st_loadwi_carry /\
      exists s', decode_next_instr st_loadwi_carry = Ok tt s'
        /\ reg s' REG_CARRY = 5)
  /\ (regs_ok st_loadwi_trap /\
      exists s', decode_next_instr st_loadwi_trap = Ok tt s'
        /\ reg s' REG_TRAP = 7).
Proof.
  assert (Hz : in_range 0) by (unfold in_range, MINVAL, MAXVAL; lia).
  assert (H1 : in_range 1) by (unfold in_range, MINVAL, MAXVAL; lia).
  repeat apply conj.
  - unfold regs_ok. vm_compute registers.
    repeat (apply Forall_cons_2; [first [exact Hz | exact H1]|]).
    apply Forall_nil_2.
  - eexists. split; [vm_compute; reflexivity|]. split; [reflexivity|].
    unfold in_range, MINVAL, MAXVAL. vm_compute reg. lia.
  - unfold regs_ok. vm_compute registers.
    repeat (apply Forall_cons_2; [first [exact Hz | exact H1]|]).
    apply Forall_nil_2.
  - eexists. split; [vm_compute; reflexivity|]. reflexivity.
  - unfold regs_ok. vm_compute registers.
    repeat (apply Forall_cons_2; [first [exact Hz | exact H1]|]).
    apply Forall_nil_2.
  - eexists. split; [vm_compute; reflexivity|]. reflexivity.
Qed.

(** C8, amended. From a state with 33 registers in range over a memory
    of fewer than [2^32] bytes, after a decoded instruction that returns:
    every register is in [[-2^32, 2^32 - 1]] unless the method selected is
    [shl] or [shli], or [div] of [-2^32] by [-1]; [CARRY] is 0 or 1 if it
    was before and is not a destination operand of the instruction; and
    the same holds of [TRAP]. *)
Theorem decode_keeps_ranges_and_flags
    (s s1 s' : CPU) (opcode op1 op2 op3 : Z) :
  cpu_inv s ->
  fetch s = Ok (opcode, op1, op2, op3) s1 ->
  dispatch opcode op1 op2 op3 s1 = Ok tt s' ->
  decode_next_instr s = Ok tt s'
  /\ (selected_fn opcode <> Some F_shl ->
      selected_fn opcode <> Some F_shli ->
      ~ (selected_fn opcode = Some F_div
         /\ reg s1 op1 = MINVAL /\ reg s1 op2 = -1) ->
      regs_ok s')
  /\ (carry01 s ->
      (forall fn, selected_fn opcode = Some fn ->
                  ~ In REG_CARRY (dest_regs fn op1 op2 op3)) ->
      carry01 s')
  /\ (trap01 s ->
      (forall fn, selected_fn opcode = Some fn ->
                  ~ In REG_TRAP (dest_regs fn op1 op2 op3)) ->
      trap01 s').
Proof.
  intros Hinv Hfetch Hdisp.
  pose proof (wp_ok _ _ _ _ _ _ (fetch_inv s Hinv) Hfetch) as Hpost.
  cbv beta iota in Hpost.
  destruct Hpost as ((Hwf & Hregs & Hmem) & H1 & H2 & H3 & Hc & Ht).
  split; [|split; [|split]].
  - unfold decode_next_instr. rewrite (bind_ok _ _ _ _ _ Hfetch).
    exact Hdisp.
  - intros Hshl Hshli Hdiv.
    apply (wp_ok _ _ _ _ _ _
             (dispatch_regs_ok opcode op1 op2 op3 s1
                (conj Hwf (conj Hregs Hmem)) H1 H2 H3 Hshl Hshli Hdiv)
             Hdisp).
  - intros Hc0 Hdest.
    apply (wp_ok _ _ _ _ _ _
             (dispatch_carry01 opcode op1 op2 op3 s1 Hwf H1 H2 H3
                (Hc Hc0) Hdest)
             Hdisp).
  - intros Ht0 Hdest.
    apply (wp_ok _ _ _ _ _ _
             (dispatch_trap01 opcode op1 op2 op3 s1 Hwf H1 H2 H3
                (Ht Ht0) Hdest)
             Hdisp).
Qed.

Lemma decode_keeps_ranges_witness :
  exists s', decode_next_instr st_add = Ok tt s'
    /\ regs_ok s' /\ carry01 s' /\ trap01 s' /\ reg s' 8 = 2.
Proof.
  assert (Hinv : cpu_inv st_add).
  { split; [reflexivity|]. split.
    - unfold regs_ok. vm_compute registers.
      repeat (apply Forall_cons_2;
              [unfold in_range, MINVAL, MAXVAL; lia|]).
      apply Forall_nil_2.
    - split.
      + vm_compute memory.
        repeat (apply Forall_cons_2; [unfold is_byte; lia|]).
        apply Forall_nil_2.
      + vm_compute. discriminate. }
  eassert (Hfetch : fetch st_add = Ok (0xd, 6, 7, 8) _)
    by (vm_compute; reflexivity).
  match type of Hfetch with
  | _ = Ok _ ?s1 =>
      eassert (Hdisp : dispatch 0xd 6 7 8 s1 = Ok tt _)
        by (vm_compute; reflexivity)
  end.
  destruct (decode_keeps_ranges_and_flags _ _ _ 0xd 6 7 8
              Hinv Hfetch Hdisp) as (Hdec & Hr & Hc & Ht).
  eexists. split; [exact Hdec|].
  split; [apply Hr; [discriminate | discriminate |]|].
  { intros [H _]. discriminate H. }
  split; [apply Hc; [now left|]|].
  { intros fn [= <-]. vm_compute. intros [H|[]]. discriminate H. }
  split; [apply Ht; [now left|]|reflexivity].
  intros fn [= <-]. vm_compute. intros [H|[]]. discriminate H.
Defined.

(** ** When the engine does not abort *)





(** A value in range shifted left by a count of at most [MAXVAL] is far
    from the largest integer the interpreter can hold. *)
Lemma shl_digits_small a n :
  in_range a -> 0 <= n <= MAXVAL -> shl_digits a n <= MAX_LONG_DIGITS.
Proof.
  unfold in_range, MINVAL, MAXVAL, shl_digits, int_digits. intros Ha Hn.
  assert (Hlog : Z.log2 (Z.abs a) <= 32).
  { change 32 with (Z.log2 (2 ^ 32)). apply Z.log2_le_mono. lia. }
  pose proof (Z.log2_nonneg (Z.abs a)) as Hlog0.
  assert (Hd : Z.log2 (Z.abs a) / 30 < 2).
  { apply Z.div_lt_upper_bound; lia. }
  assert (Hq : n / 30 <= 2 ^ 32).
  { apply Z.div_le_upper_bound; lia. }
  change MAX_LONG_DIGITS with 2305843009213693945.
  destruct (n mod 30 =? 0); lia.
Qed.

(** A left shift of a register in range by a count in range, or by an
    operand word, is not refused. *)
Ltac overflow_solve :=
  lazymatch goal with
  | H : shl_digits ?a ?n > MAX_LONG_DIGITS |- _ =>
      exfalso;
      let Ha := fresh "Ha" in
      let Hn := fresh "Hn" in
      assert (Ha : in_range a) by range_solve;
      assert (Hn : 0 <= n <= MAXVAL)
        by first [ unfold is_word, MAXVAL in *; lia
                 | assert (in_range n) by range_solve;
                   unfold in_range in *; lia ];
      pose proof (shl_digits_small a n Ha Hn); lia
  end.






(** * Further properties of the engine *)

(** ** Trap entry *)

Lemma memory_enter vec s : memory (enter vec s) = memory s.
Proof. reflexivity. Qed.

Lemma intr_pending_enter vec s : intr_pending (enter vec s) = intr_pending s.
Proof. reflexivity. Qed.

(** X1. [trap(v)] always returns on a CPU with its 33 registers, also
    through its early [return self.trap(DTRAP)]: [TRAP = 1], [RET] = the
    [PC] of the call, interrupts masked, the event cleared; memory, the
    pending flag and every other register are untouched. [PC = v] when
    [TRAP] was 0 and [v >= 0]; a negative [v] ends at the double trap
    vector. *)
Theorem trap_always_enters (s : CPU) (v : Z) :
  wf s ->
  exists s',
    trap v s = Ok tt s'
    /\ reg s' REG_TRAP = 1
    /\ reg s' REG_RET = reg s REG_PC
    /\ intr_mask s' = true
    /\ intr_event s' = false
    /\ intr_pending s' = intr_pending s
    /\ memory s' = memory s
    /\ (forall i, valid_reg i ->
          i <> REG_PC -> i <> REG_RET -> i <> REG_TRAP ->
          reg s' i = reg s i)
    /\ (reg s REG_TRAP = 0 -> 0 <= v -> reg s' REG_PC = v)
    /\ (v < 0 -> reg s' REG_PC = TRAP_DTRAP).
Proof.
  intros Hwf. exists (enter (trap_vector s v) s).
  split; [now apply trap_ok|].
  rewrite reg_enter_trap, reg_enter_ret, reg_enter_pc by assumption.
  do 6 (split; [reflexivity|]).
  split; [intros i Hi H1 H2 H3; now apply reg_enter_other|].
  split; [intros Ht Hv; now apply trap_vector_direct|].
  intros Hv. unfold trap_vector.
  replace (v <? 0) with true by (symmetry; apply Z.ltb_lt; lia).
  now rewrite orb_true_r.
Qed.

Lemma trap_always_enters_witness :
  exists s',
    trap (-5) st_running = Ok tt s'
    /\ reg s' REG_TRAP = 1
    /\ reg s' REG_RET = 0x104
    /\ reg s' REG_PC = TRAP_DTRAP
    /\ reg s' 6 = 10.
Proof.
  destruct (trap_always_enters st_running (-5))
    as (s' & Ht & H1 & H2 & _ & _ & _ & _ & Hfr & _ & Hneg);
    [reflexivity|].
  exists s'. split; [exact Ht|]. split; [exact H1|]. split; [exact H2|].
  split; [apply Hneg; lia|].
  rewrite Hfr; [reflexivity | unfold valid_reg, REG_RESVD; lia
               | discriminate..].
Defined.

(** ** [jmp] *)

(** X2. [jmp(addr)] with [addr >= 0] changes [PC] and nothing else; with
    a negative [addr] it never stores the address: it takes the ILL trap
    ([PC = 0x20]) from running code and the double trap ([PC = 0x40])
    inside a handler, with [RET] = the [PC] of the call. *)
Theorem jmp_sets_pc_or_traps (s : CPU) (addr : Z) :
  wf s ->
  (0 <= addr -> jmp addr s = Ok tt (with_reg REG_PC addr s))
  /\ (addr < 0 ->
      exists s',
        jmp addr s = Ok tt s'
        /\ reg s' REG_TRAP = 1
        /\ reg s' REG_RET = reg s REG_PC
        /\ (reg s REG_TRAP = 0 -> reg s' REG_PC = TRAP_ILL)
        /\ (reg s REG_TRAP <> 0 -> reg s' REG_PC = TRAP_DTRAP)).
Proof.
  intros Hwf. split; intros Ha; unfold jmp, jmp_with.
  - replace (addr <? 0) with false by (symmetry; apply Z.ltb_ge; lia).
    now apply set_reg_ok; [|cpu_side].
  - replace (addr <? 0) with true by (symmetry; apply Z.ltb_lt; lia).
    exists (enter (trap_vector s TRAP_ILL) s).
    split; [now apply trap_ok|].
    rewrite reg_enter_trap, reg_enter_ret, reg_enter_pc by assumption.
    do 2 (split; [reflexivity|]).
    split; [intros Ht; apply trap_vector_direct; [assumption | discriminate]
           | intros Ht; apply trap_vector_escalates;
             [assumption | discriminate]].
Qed.

Lemma jmp_sets_pc_or_traps_witness :
  jmp 0x300 st_running = Ok tt (with_reg REG_PC 0x300 st_running)
  /\ exists s',
       jmp (-1) st_in_handler = Ok tt s'
       /\ reg s' REG_PC = TRAP_DTRAP.
Proof.
  destruct (jmp_sets_pc_or_traps st_running 0x300) as [Hpos _];
    [reflexivity|].
  destruct (jmp_sets_pc_or_traps st_in_handler (-1)) as [_ Hneg];
    [reflexivity|].
  split; [apply Hpos; lia|].
  destruct Hneg as (s' & Hj & _ & _ & _ & Hd); [lia|].
  exists s'. split; [exact Hj|]. apply Hd. discriminate.
Defined.

(** ** Conditional jumps *)

Lemma jmp_nonneg addr s :
  wf s -> 0 <= addr -> jmp addr s = Ok tt (with_reg REG_PC addr s).
Proof.
  intros Hwf Ha. unfold jmp, jmp_with.
  replace (addr <? 0) with false by (symmetry; apply Z.ltb_ge; lia).
  apply set_reg_ok; [assumption | cpu_side].
Qed.

(** Decide the comparison at the head of a branch and finish. *)
Ltac branch_solve :=
  cpu_run; reg_simp;
  repeat
    match goal with
    | |- context [?a =? ?b] => destruct (Z.eqb_spec a b); try lia
    | |- context [?a <? ?b] => destruct (Z.ltb_spec a b); try lia
    | |- context [?a <=? ?b] => destruct (Z.leb_spec a b); try lia
    | |- context [?a >? ?b] =>
        rewrite (Z.gtb_ltb a b); destruct (Z.ltb_spec b a); try lia
    | |- context [?a >=? ?b] =>
        rewrite (Z.geb_leb a b); destruct (Z.leb_spec b a); try lia
    end;
  cbn [negb];
  first [ reflexivity | apply jmp_nonneg; [cpu_side | assumption] ].

(** X3. The six register comparisons are signed and pairwise
    complementary: for a target [addr >= 0], [jmpeq]/[jmpne],
    [jmplt]/[jmpge] and [jmpgt]/[jmple] each split every pair of values
    between them; the one that jumps changes [PC] only and the other
    changes nothing. *)
Theorem conditional_jumps_complement (s : CPU) (r1 r2 addr : Z) :
  wf s -> valid_reg r1 -> valid_reg r2 -> 0 <= addr ->
  let a := reg s r1 in
  let b := reg s r2 in
  let taken := Ok tt (with_reg REG_PC addr s) in
  let skipped := Ok tt s in
  (a < b ->
     jmplt r1 r2 addr s = taken /\ jmpge r1 r2 addr s = skipped
     /\ jmple r1 r2 addr s = taken /\ jmpgt r1 r2 addr s = skipped
     /\ jmpne r1 r2 addr s = taken /\ jmpeq r1 r2 addr s = skipped)
  /\ (a = b ->
     jmplt r1 r2 addr s = skipped /\ jmpge r1 r2 addr s = taken
     /\ jmple r1 r2 addr s = taken /\ jmpgt r1 r2 addr s = skipped
     /\ jmpne r1 r2 addr s = skipped /\ jmpeq r1 r2 addr s = taken)
  /\ (a > b ->
     jmplt r1 r2 addr s = skipped /\ jmpge r1 r2 addr s = taken
     /\ jmple r1 r2 addr s = skipped /\ jmpgt r1 r2 addr s = taken
     /\ jmpne r1 r2 addr s = taken /\ jmpeq r1 r2 addr s = skipped).
Proof.
  intros Hwf H1 H2 Ha a b taken skipped. subst a b taken skipped.
  repeat apply conj; intros Hab; repeat apply conj;
    unfold jmplt, jmpge, jmple, jmpgt, jmpne, jmpeq; branch_solve.
Qed.

Lemma conditional_jumps_complement_witness :
  jmplt 6 7 0x300 st_running = Ok tt (with_reg REG_PC 0x300 st_running)
  /\ jmpge 6 7 0x300 st_running = Ok tt st_running.
Proof.
  destruct (conditional_jumps_complement st_running 6 7 0x300)
    as [Hlt _];
    [ reflexivity
    | unfold valid_reg, REG_RESVD; lia
    | unfold valid_reg, REG_RESVD; lia
    | lia | ].
  destruct Hlt as (H1 & H2 & _); [reflexivity|].
  split; [exact H1 | exact H2].
Defined.

(** X4. The immediate comparisons load [val] into the scratch register
    [0x20] and compare register [r1] with it: for [r1] other than the
    scratch register and [addr >= 0] they decide as the register forms do
    on the value of [r1] and [val], and leave [val] in register [0x20]
    either way. *)
Theorem immediate_jumps_compare_with_val (s : CPU) (r1 val addr : Z) :
  wf s -> valid_reg r1 -> r1 <> REG_RESVD -> 0 <= addr ->
  let a := reg s r1 in
  let s0 := with_reg REG_RESVD val s in
  let taken := Ok tt (with_reg REG_PC addr s0) in
  let skipped := Ok tt s0 in
  (a < val ->
     jmplti r1 val addr s = taken /\ jmpgei r1 val addr s = skipped
     /\ jmplei r1 val addr s = taken /\ jmpgti r1 val addr s = skipped
     /\ jmpnei r1 val addr s = taken /\ jmpeqi r1 val addr s = skipped)
  /\ (a = val ->
     jmplti r1 val addr s = skipped /\ jmpgei r1 val addr s = taken
     /\ jmplei r1 val addr s = taken /\ jmpgti r1 val addr s = skipped
     /\ jmpnei r1 val addr s = skipped /\ jmpeqi r1 val addr s = taken)
  /\ (a > val ->
     jmplti r1 val addr s = skipped /\ jmpgei r1 val addr s = taken
     /\ jmplei r1 val addr s = skipped /\ jmpgti r1 val addr s = taken
     /\ jmpnei r1 val addr s = taken /\ jmpeqi r1 val addr s = skipped).
Proof.
  intros Hwf H1 Hne Ha a s0 taken skipped. subst a s0 taken skipped.
  repeat apply conj; intros Hab; repeat apply conj;
    unfold jmplti, jmpgei, jmplei, jmpgti, jmpnei, jmpeqi,
      jmplt, jmpge, jmple, jmpgt, jmpne, jmpeq; branch_solve.
Qed.

Lemma immediate_jumps_witness :
  jmpeqi 6 10 0x300 st_running
  = Ok tt (with_reg REG_PC 0x300 (with_reg REG_RESVD 10 st_running)).
Proof.
  destruct (immediate_jumps_compare_with_val st_running 6 10 0x300)
    as [_ [Heq _]];
    [ reflexivity
    | unfold valid_reg, REG_RESVD; lia
    | discriminate
    | lia | ].
  destruct Heq as (_ & _ & _ & _ & _ & H); [reflexivity|].
  exact H.
Defined.

(** X5. With the scratch register [0x20] itself as first operand, which
    the decoder accepts, an immediate comparison compares [val] with
    itself: [jmpeqi], [jmpgei] and [jmplei] always jump, and [jmpnei],
    [jmplti] and [jmpgti] never do, whatever register [0x20] held. *)
Theorem immediate_jumps_on_scratch_register (s : CPU) (val addr : Z) :
  wf s -> 0 <= addr ->
  let s0 := with_reg REG_RESVD val s in
  let taken := Ok tt (with_reg REG_PC addr s0) in
  let skipped := Ok tt s0 in
  jmpeqi REG_RESVD val addr s = taken
  /\ jmpgei REG_RESVD val addr s = taken
  /\ jmplei REG_RESVD val addr s = taken
  /\ jmpnei REG_RESVD val addr s = skipped
  /\ jmplti REG_RESVD val addr s = skipped
  /\ jmpgti REG_RESVD val addr s = skipped.
Proof.
  intros Hwf Ha s0 taken skipped. subst s0 taken skipped.
  repeat apply conj;
    unfold jmplti, jmpgei, jmplei, jmpgti, jmpnei, jmpeqi,
      jmplt, jmpge, jmple, jmpgt, jmpne, jmpeq; branch_solve.
Qed.

Lemma immediate_jumps_on_scratch_witness :
  jmpnei REG_RESVD 99 0x300 st_running
  = Ok tt (with_reg REG_RESVD 99 st_running).
Proof.
  destruct (immediate_jumps_on_scratch_register st_running 99 0x300)
    as (_ & _ & _ & H & _); [reflexivity | lia |].
  exact H.
Defined.

(** ** Interrupt delivery *)

(** X6. An [intr()] that finds interrupts unmasked is delivered at once
    and clears any pending flag: from running code ([TRAP = 0]) it enters
    the INTR vector ([PC = 0x10]), and inside a handler that re-enabled
    interrupts ([TRAP] nonzero) it escalates to the double trap
    ([PC = 0x40]); [RET] = the [PC] of the call, interrupts are masked
    again. *)
Theorem intr_unmasked_delivers (s : CPU) :
  wf s -> intr_mask s = false ->
  exists s',
    intr s = Ok tt s'
    /\ intr_pending s' = false
    /\ intr_mask s' = true
    /\ reg s' REG_TRAP = 1
    /\ reg s' REG_RET = reg s REG_PC
    /\ (reg s REG_TRAP = 0 -> reg s' REG_PC = TRAP_INTR)
    /\ (reg s REG_TRAP <> 0 -> reg s' REG_PC = TRAP_DTRAP).
Proof.
  intros Hwf Hm.
  exists (enter (trap_vector s TRAP_INTR) (with_pending false s)).
  split.
  { unfold intr, bind, get_intr_mask. rewrite Hm.
    unfold set_intr_pending.
    now rewrite (trap_ok TRAP_INTR) by (exact Hwf). }
  rewrite reg_enter_trap, reg_enter_ret, reg_enter_pc by cpu_side.
  do 4 (split; [reflexivity|]).
  split; [intros Ht; apply trap_vector_direct; [assumption | discriminate]
         | intros Ht; apply trap_vector_escalates;
           [assumption | discriminate]].
Qed.

Lemma intr_unmasked_delivers_witness :
  exists s',
    intr st_running = Ok tt s'
    /\ reg s' REG_PC = TRAP_INTR /\ reg s' REG_RET = 0x104.
Proof.
  destruct (intr_unmasked_delivers st_running)
    as (s' & Hi & _ & _ & _ & Hr & Hpc & _); [reflexivity | reflexivity |].
  exists s'. split; [exact Hi|]. split; [now apply Hpc | exact Hr].
Defined.

(** X7. [ret()] with an interrupt pending does not resume the
    interrupted code: it re-enters the INTR handler at once, with
    [PC = 0x10], [TRAP = 1], [RET] still the return address it was about
    to resume, the pending flag cleared and interrupts masked. *)
Theorem ret_with_pending_reenters (s : CPU) :
  wf s -> intr_pending s = true ->
  exists s',
    ret s = Ok tt s'
    /\ reg s' REG_PC = TRAP_INTR
    /\ reg s' REG_RET = reg s REG_RET
    /\ reg s' REG_TRAP = 1
    /\ intr_pending s' = false
    /\ intr_mask s' = true.
Proof.
  intros Hwf Hp.
  eexists. split.
  { rewrite ret_unfold by assumption.
    rewrite eni_pending by (cpu_side || exact Hp). reflexivity. }
  rewrite reg_enter_trap, reg_enter_ret, reg_enter_pc by cpu_side.
  split.
  { apply trap_vector_direct; [|discriminate]. now reg_simp. }
  split; [now reg_simp|]. repeat split.
Qed.

Lemma ret_with_pending_witness :
  exists s',
    ret st_pending = Ok tt s'
    /\ reg s' REG_PC = TRAP_INTR
    /\ reg s' REG_RET = 0x200
    /\ reg s' REG_TRAP = 1.
Proof.
  destruct (ret_with_pending_reenters st_pending)
    as (s' & Hr & Hpc & Hret & Ht & _); [reflexivity | reflexivity |].
  exists s'. split; [exact Hr|]. split; [exact Hpc|].
  split; [exact Hret | exact Ht].
Defined.

(** ** Immediate arithmetic *)

(** X8. [addi], [subi] and [muli] load the immediate into the scratch
    register [0x20] and run the register form: for a first operand other
    than the scratch register, the destination receives the reduced
    result of [r1] and [val], [CARRY] the overflow bit, and [val] stays in
    register [0x20] unless the destination overwrites it. *)
Theorem immediate_arith_uses_scratch (s : CPU) (r1 val r2 : Z) :
  wf s -> valid_reg r1 -> valid_reg r2 -> r1 <> REG_RESVD ->
  let a := reg s r1 in
  addi r1 val r2 s =
    Ok tt (with_reg REG_CARRY (int_of_bool (a + val >? MAXVAL))
             (with_reg r2 ((a + val) mod MAXVAL)
                (with_reg REG_RESVD val s)))
  /\ subi r1 val r2 s =
    Ok tt (with_reg REG_CARRY (int_of_bool (a - val <? MINVAL))
             (with_reg r2 ((a - val) mod MINVAL)
                (with_reg REG_RESVD val s)))
  /\ muli r1 val r2 s =
    Ok tt (with_reg REG_CARRY (int_of_bool (a * val >? MAXVAL))
             (with_reg r2 ((a * val) mod MAXVAL)
                (with_reg REG_RESVD val s))).
Proof.
  intros Hwf H1 H2 Hne a. subst a.
  repeat apply conj; unfold addi, subi, muli, add, sub, mul;
    cpu_run; reg_simp; reflexivity.
Qed.

Lemma immediate_arith_witness :
  exists s',
    addi 6 5 8 st_running = Ok tt s'
    /\ reg s' 8 = 15 /\ reg s' REG_RESVD = 5 /\ reg s' REG_CARRY = 0.
Proof.
  destruct (immediate_arith_uses_scratch st_running 6 5 8) as [H _];
    [ reflexivity
    | unfold valid_reg, REG_RESVD; lia
    | unfold valid_reg, REG_RESVD; lia
    | discriminate | ].
  eexists. split; [exact H|]. repeat split.
Defined.

(** X9. With the scratch register [0x20] as first operand the immediate
    has already replaced it when it is read: [addi(0x20, val, r)] stores
    [(val + val) mod MAXVAL], [subi(0x20, val, r)] stores 0 and
    [muli(0x20, val, r)] stores [(val * val) mod MAXVAL], whatever
    register [0x20] held. *)
Theorem immediate_arith_on_scratch_register (s : CPU) (val r2 : Z) :
  wf s -> valid_reg r2 ->
  addi REG_RESVD val r2 s =
    Ok tt (with_reg REG_CARRY (int_of_bool (val + val >? MAXVAL))
             (with_reg r2 ((val + val) mod MAXVAL)
                (with_reg REG_RESVD val s)))
  /\ subi REG_RESVD val r2 s =
    Ok tt (with_reg REG_CARRY 0
             (with_reg r2 0 (with_reg REG_RESVD val s)))
  /\ muli REG_RESVD val r2 s =
    Ok tt (with_reg REG_CARRY (int_of_bool (val * val >? MAXVAL))
             (with_reg r2 ((val * val) mod MAXVAL)
                (with_reg REG_RESVD val s))).
Proof.
  intros Hwf H2.
  repeat apply conj; unfold addi, subi, muli, add, sub, mul;
    cpu_run; reg_simp; try reflexivity.
  rewrite Z.sub_diag. reflexivity.
Qed.

Lemma immediate_arith_on_scratch_witness :
  exists s',
    addi REG_RESVD 5 8 st_running = Ok tt s' /\ reg s' 8 = 10.
Proof.
  destruct (immediate_arith_on_scratch_register st_running 5 8) as [H _];
    [ reflexivity | unfold valid_reg, REG_RESVD; lia | ].
  eexists. split; [exact H|]. reflexivity.
Defined.

(** X10. [divi] with immediate 0 takes the DIV trap (the double trap
    inside a handler) and leaves 0 in the scratch register; with a
    nonzero immediate it stores the floor quotient of [r1] by [val] and
    clears [CARRY]. *)
Theorem divi_traps_or_divides (s : CPU) (r1 val r2 : Z) :
  wf s -> valid_reg r1 -> valid_reg r2 -> r1 <> REG_RESVD ->
  (val = 0 ->
     exists s',
       divi r1 val r2 s = Ok tt s'
       /\ reg s' REG_TRAP = 1
       /\ reg s' REG_RET = reg s REG_PC
       /\ reg s' REG_RESVD = 0
       /\ (reg s REG_TRAP = 0 -> reg s' REG_PC = TRAP_DIV)
       /\ (reg s REG_TRAP <> 0 -> reg s' REG_PC = TRAP_DTRAP))
  /\ (val <> 0 ->
     divi r1 val r2 s =
       Ok tt (with_reg REG_CARRY 0
                (with_reg r2 (reg s r1 / val)
                   (with_reg REG_RESVD val s)))).
Proof.
  intros Hwf H1 H2 Hne. split; intros Hv.
  - subst val. unfold divi. cpu_run.
    rewrite div_by_zero_ok by (cpu_side || now reg_simp).
    eexists. split; [reflexivity|].
    rewrite reg_enter_trap, reg_enter_ret, reg_enter_pc by cpu_side.
    rewrite (reg_enter_other _ _ REG_RESVD) by reg_side.
    split; [reflexivity|]. split; [now reg_simp|]. split; [now reg_simp|].
    split; intros Ht.
    + apply trap_vector_direct; [now reg_simp | discriminate].
    + apply trap_vector_escalates; [now reg_simp | discriminate].
  - unfold divi. cpu_run.
    rewrite div_nonzero_ok by (cpu_side || now reg_simp).
    now reg_simp.
Qed.

Lemma divi_traps_or_divides_witness :
  exists s',
    divi 7 0 8 st_running = Ok tt s'
    /\ reg s' REG_PC = TRAP_DIV /\ reg s' REG_RET = 0x104.
Proof.
  destruct (divi_traps_or_divides st_running 7 0 8) as [H _];
    [ reflexivity
    | unfold valid_reg, REG_RESVD; lia
    | unfold valid_reg, REG_RESVD; lia
    | discriminate | ].
  destruct (H eq_refl) as (s' & Hd & _ & Hr & _ & Hpc & _).
  exists s'. split; [exact Hd|]. split; [now apply Hpc | exact Hr].
Defined.

(** ** Where the reductions are exact *)

(** X11. [add] returns the true sum with [CARRY = 0] exactly when
    [0 <= a + b < MAXVAL]; a sum in [(MAXVAL, 2 * MAXVAL)] comes back as
    [a + b - MAXVAL] with [CARRY = 1]. [sub] returns the true difference
    only when it is in [(-2^32, 0]]: a positive difference below [2^32]
    comes back as [a - b - 2^32], a negative number, with [CARRY = 0]. *)
Theorem add_sub_exact_ranges (s : CPU) (r1 r2 r3 : Z) :
  wf s -> valid_reg r1 -> valid_reg r2 -> valid_reg r3 ->
  r3 <> REG_CARRY ->
  let a := reg s r1 in
  let b := reg s r2 in
  (exists s', add r1 r2 r3 s = Ok tt s'
     /\ (0 <= a + b < MAXVAL ->
         reg s' r3 = a + b /\ reg s' REG_CARRY = 0)
     /\ (MAXVAL < a + b < 2 * MAXVAL ->
         reg s' r3 = a + b - MAXVAL /\ reg s' REG_CARRY = 1))
  /\ (exists s', sub r1 r2 r3 s = Ok tt s'
     /\ (MINVAL < a - b <= 0 ->
         reg s' r3 = a - b /\ reg s' REG_CARRY = 0)
     /\ (0 < a - b < 2 ^ 32 ->
         reg s' r3 = a - b - 2 ^ 32 /\ reg s' r3 < 0
         /\ reg s' REG_CARRY = 0)).
Proof.
  intros Hwf H1 H2 H3 Hne a b. split.
  - eexists. split; [now apply add_ok|]. reg_simp. fold a b.
    split; intros Hr.
    + split; [apply Z.mod_small; lia|].
      destruct (int_of_bool_gt (a + b) MAXVAL) as [_ H0]. apply H0. lia.
    + split.
      * symmetry. apply (Z.mod_unique_pos _ _ 1). unfold MAXVAL in *; lia.
        lia.
      * destruct (int_of_bool_gt (a + b) MAXVAL) as [H0 _]. apply H0. lia.
  - eexists. split; [now apply sub_ok|]. reg_simp. fold a b.
    assert (Hc : MINVAL <= a - b -> int_of_bool (a - b <? MINVAL) = 0)
      by (intros; destruct (int_of_bool_lt (a - b) MINVAL) as [_ H0];
          now apply H0).
    split; intros Hr.
    + split; [|apply Hc; lia].
      symmetry. apply (Z.mod_unique_neg _ _ 0); unfold MINVAL in *; lia.
    + assert (Hm : (a - b) mod MINVAL = a - b - 2 ^ 32).
      { symmetry. apply (Z.mod_unique_neg _ _ (-1));
          unfold MINVAL in *; lia. }
      rewrite Hm. split; [reflexivity|]. split; [lia|].
      apply Hc. unfold MINVAL. lia.
Qed.

Lemma add_sub_exact_ranges_witness :
  exists s', sub 7 6 8 st_running = Ok tt s'
    /\ reg s' 8 = 10 - 2 ^ 32 /\ reg s' REG_CARRY = 0.
Proof.
  destruct (add_sub_exact_ranges st_running 7 6 8)
    as [_ (s' & Hs & _ & Hpos)];
    [ reflexivity
    | unfold valid_reg, REG_RESVD; lia
    | unfold valid_reg, REG_RESVD; lia
    | unfold valid_reg, REG_RESVD; lia
    | discriminate | ].
  destruct Hpos as (Hv & _ & Hc); [vm_compute; split; reflexivity|].
  exists s'. split; [exact Hs|]. split; [exact Hv | exact Hc].
Defined.

(** X12. [add] and [mul] are commutative in their source registers:
    exchanging [r1] and [r2] gives the same state, [CARRY] included. *)
Theorem add_mul_commute (s : CPU) (r1 r2 r3 : Z) :
  wf s -> valid_reg r1 -> valid_reg r2 -> valid_reg r3 ->
  add r1 r2 r3 s = add r2 r1 r3 s /\ mul r1 r2 r3 s = mul r2 r1 r3 s.
Proof.
  intros Hwf H1 H2 H3.
  rewrite !add_ok, !mul_ok by assumption.
  now rewrite (Z.add_comm (reg s r2)), (Z.mul_comm (reg s r2)).
Qed.

Lemma add_mul_commute_witness :
  add 6 7 8 st_running = add 7 6 8 st_running
  /\ mul 6 7 8 st_running = mul 7 6 8 st_running.
Proof.
  apply (add_mul_commute st_running 6 7 8);
    [reflexivity | unfold valid_reg, REG_RESVD; lia..].
Defined.

(** ** Byte stores and loads *)

Lemma land_ff_mod v : Z.land v 0xff = v mod 2 ^ 8.
Proof.
  change (Z.land v 0xff) with (Z.land v (Z.ones 8)).
  apply Z.land_ones. lia.
Qed.

(** X13. Inside memory, [saveb] of a register holding [v] followed by
    [loadb] from the same address loads [v mod 256], the low 8 bits of
    [v]; the store changes that one byte and no other, and no register.
    [loadbi] masks its immediate the same way. *)
Theorem saveb_loadb_roundtrip (s : CPU) (r r' a : Z) :
  wf s -> valid_reg r -> valid_reg r' -> in_mem s a ->
  let v := reg s r in
  exists s1 s2,
    saveb r a s = Ok tt s1
    /\ loadb r' a s1 = Ok tt s2
    /\ reg s2 r' = v mod 2 ^ 8
    /\ byte_at s1 a = v mod 2 ^ 8
    /\ (forall b, 0 <= b -> b <> a -> byte_at s1 b = byte_at s b)
    /\ registers s1 = registers s
    /\ (forall w, loadbi r' w s = Ok tt (with_reg r' (w mod 2 ^ 8) s)).
Proof.
  intros Hwf Hr Hr' Ha v. destruct Ha as [Ha0 Ha1].
  assert (Ha : in_mem s a) by (split; assumption).
  exists (with_byte a (Z.land v 0xff) s).
  eexists. split; [unfold saveb; mem_run; reflexivity|].
  split; [unfold loadb; mem_run; reflexivity|].
  byte_simp. reg_simp. rewrite land_ff_mod.
  do 2 (split; [reflexivity|]).
  split; [intros b Hb Hne; now rewrite byte_at_with_byte_ne by lia|].
  split; [reflexivity|].
  intros w. unfold loadbi. rewrite set_reg_ok by assumption.
  now rewrite land_ff_mod.
Qed.

Lemma saveb_loadb_roundtrip_witness :
  exists s1 s2,
    saveb 6 3 st_minus_one = Ok tt s1
    /\ loadb 7 3 s1 = Ok tt s2
    /\ reg s2 7 = 255.
Proof.
  destruct (saveb_loadb_roundtrip st_minus_one 6 7 3)
    as (s1 & s2 & Hs & Hl & Hv & _);
    [ reflexivity
    | unfold valid_reg, REG_RESVD; lia
    | unfold valid_reg, REG_RESVD; lia
    | vm_compute; split; [discriminate | reflexivity]
    | ].
  exists s1, s2. split; [exact Hs|]. split; [exact Hl | exact Hv].
Defined.



(** ** Word stores and loads, continued *)

(** X15. [savewi] of a 32-bit value [val] at an address inside memory
    followed by [loadw] from that address loads [val] itself; the store
    goes through the scratch register, which is left holding [val]. *)
Theorem savewi_loadw_roundtrip (s : CPU) (val a r : Z) :
  wf s -> valid_reg r -> is_word val ->
  0 <= a -> a + 3 <= MAXVAL -> a + 3 < Z.of_nat (length (memory s)) ->
  exists s1 s2,
    savewi val a s = Ok tt s1
    /\ reg s1 REG_RESVD = val
    /\ loadw r a s1 = Ok tt s2
    /\ reg s2 r = val
    /\ byte_at s1 a = val / 2 ^ 24 mod 2 ^ 8
    /\ byte_at s1 (a + 3) = val mod 2 ^ 8.
Proof.
  intros Hwf Hr Hval Ha Hmax Hlen.
  assert (H0 : in_mem s a) by (unfold in_mem; lia).
  assert (H1 : in_mem s (a + 1)) by (unfold in_mem; lia).
  assert (H2 : in_mem s (a + 2)) by (unfold in_mem; lia).
  assert (H3 : in_mem s (a + 3)) by (unfold in_mem; lia).
  eexists _, _.
  split.
  { unfold savewi. cpu_run. apply savew_word; cpu_side. }
  split; [now reg_simp|].
  split; [apply loadw_word; cpu_side|].
  unfold word_at. byte_simp. reg_simp.
  rewrite be_bytes_join.
  split; [apply Z.mod_small; exact Hval|].
  rewrite (be_byte_of_low32 val 24) by lia.
  change (Z.land val 255) with (Z.land (Z.shiftr val 0) 255).
  rewrite (be_byte_of_low32 val 0) by lia.
  rewrite (Z.mod_small val (2 ^ 32)) by exact Hval.
  now rewrite Z.pow_0_r, Z.div_1_r.
Qed.

Lemma savewi_loadw_roundtrip_witness :
  exists s1 s2,
    savewi 0xDEADBEEF 4 st_minus_one = Ok tt s1
    /\ loadw 7 4 s1 = Ok tt s2
    /\ reg s2 7 = 0xDEADBEEF
    /\ byte_at s1 4 = 0xDE /\ byte_at s1 7 = 0xEF.
Proof.
  destruct (savewi_loadw_roundtrip st_minus_one 0xDEADBEEF 4 7)
    as (s1 & s2 & Hs & _ & Hl & Hv & Hb0 & Hb3);
    [ reflexivity
    | unfold valid_reg, REG_RESVD; lia
    | unfold is_word; lia
    | lia
    | unfold MAXVAL; lia
    | simpl; lia
    | ].
  exists s1, s2. split; [exact Hs|]. split; [exact Hl|].
  split; [exact Hv|]. split; [exact Hb0 | exact Hb3].
Defined.

(** X16. A word access with [addr + 3 > MAXVAL] never touches memory:
    [loadw] and [savew] take the ILL trap (the double trap inside a
    handler) and leave memory and every register other than [PC], [RET]
    and [TRAP] as they were. *)
Theorem word_access_above_maxval_traps (s : CPU) (r addr : Z) :
  wf s -> addr + 3 > MAXVAL ->
  exists s',
    loadw r addr s = Ok tt s'
    /\ savew r addr s = Ok tt s'
    /\ memory s' = memory s
    /\ reg s' REG_TRAP = 1
    /\ reg s' REG_RET = reg s REG_PC
    /\ (reg s REG_TRAP = 0 -> reg s' REG_PC = TRAP_ILL)
    /\ (reg s REG_TRAP <> 0 -> reg s' REG_PC = TRAP_DTRAP)
    /\ (forall i, valid_reg i ->
          i <> REG_PC -> i <> REG_RET -> i <> REG_TRAP ->
          reg s' i = reg s i).
Proof.
  intros Hwf Hgt. exists (enter (trap_vector s TRAP_ILL) s).
  split; [now apply loadw_trap|]. split; [now apply savew_trap|].
  rewrite reg_enter_trap, reg_enter_ret, reg_enter_pc by assumption.
  do 3 (split; [reflexivity|]).
  split; [intros Ht; apply trap_vector_direct; [assumption | discriminate]|].
  split; [intros Ht; apply trap_vector_escalates;
          [assumption | discriminate]|].
  intros i Hi Hpc Hret Htr. now apply reg_enter_other.
Qed.

Lemma word_access_above_maxval_witness :
  exists s',
    loadw 6 0xFFFFFFFD st_minus_one = Ok tt s'
    /\ reg s' REG_PC = TRAP_ILL /\ reg s' 6 = -1.
Proof.
  destruct (word_access_above_maxval_traps st_minus_one 6 0xFFFFFFFD)
    as (s' & Hl & _ & _ & _ & _ & Hpc & _ & Hfr);
    [reflexivity | unfold MAXVAL; lia |].
  exists s'. split; [exact Hl|]. split; [now apply Hpc|].
  rewrite Hfr; [reflexivity | unfold valid_reg, REG_RESVD; lia
               | discriminate..].
Defined.

(** ** Logic and shifts *)

(** X17. Complementing twice restores the value: [not_(r1, r2)] followed
    by [not_(r2, r3)] leaves the original value of [r1] in [r3]; and a
    register combined with itself by [and_] or [or_] is copied, by
    [xor_] cleared. *)
Theorem logic_identities (s : CPU) (r1 r2 r3 : Z) :
  wf s -> valid_reg r1 -> valid_reg r2 -> valid_reg r3 ->
  (exists s1 s2,
     not_ r1 r2 s = Ok tt s1
     /\ not_ r2 r3 s1 = Ok tt s2
     /\ reg s2 r3 = reg s r1)
  /\ and_ r1 r1 r3 s = Ok tt (with_reg r3 (reg s r1) s)
  /\ or_ r1 r1 r3 s = Ok tt (with_reg r3 (reg s r1) s)
  /\ xor_ r1 r1 r3 s = Ok tt (with_reg r3 0 s)
  /\ copy r3 r1 s = Ok tt (with_reg r3 (reg s r1) s).
Proof.
  intros Hwf H1 H2 H3. split.
  - eexists _, _. split; [unfold not_; cpu_run; reflexivity|].
    split; [unfold not_; cpu_run; reflexivity|].
    reg_simp. apply Z.lnot_involutive.
  - repeat apply conj; unfold and_, or_, xor_, copy; cpu_run.
    + now rewrite Z.land_diag.
    + now rewrite Z.lor_diag.
    + now rewrite Z.lxor_nilpotent.
    + reflexivity.
Qed.

Lemma logic_identities_witness :
  exists s1 s2,
    not_ 6 8 st_running = Ok tt s1
    /\ not_ 8 9 s1 = Ok tt s2
    /\ reg s1 8 = -11 /\ reg s2 9 = 10.
Proof.
  destruct (logic_identities st_running 6 8 9)
    as [(s1 & s2 & Hn1 & Hn2 & Hv) _];
    [reflexivity | unfold valid_reg, REG_RESVD; lia..|].
  exists s1, s2. split; [exact Hn1|]. split; [exact Hn2|].
  split; [|exact Hv].
  revert Hn1. vm_compute. intros [= <-]. reflexivity.
Defined.

(** The digits of a nonzero value shifted left by [2^66] or more exceed
    what an integer object can have. *)
Lemma shl_digits_huge a n :
  2 ^ 66 <= n -> shl_digits a n > MAX_LONG_DIGITS.
Proof.
  intros Hn. unfold shl_digits, int_digits.
  pose proof (Z.log2_nonneg (Z.abs a)) as Hlog.
  assert (Hd : 0 <= Z.log2 (Z.abs a) / 30) by (apply Z.div_pos; lia).
  assert (Hq : 2 ^ 66 / 30 <= n / 30) by (apply Z.div_le_mono; lia).
  change (2 ^ 66 / 30) with 2459565876494606882 in Hq.
  change MAX_LONG_DIGITS with 2305843009213693945.
  destruct (n mod 30 =? 0); lia.
Qed.

Lemma py_shl_fits a n s :
  in_range a -> 0 <= n <= MAXVAL -> py_shl a n s = Ok (Z.shiftl a n) s.
Proof.
  intros Ha Hn. unfold py_shl.
  replace (n <? 0) with false by (symmetry; apply Z.ltb_ge; lia).
  destruct (Z.eqb_spec a 0) as [-> | Hnz]; [now rewrite Z.shiftl_0_l|].
  pose proof (shl_digits_small a n Ha Hn).
  now replace (shl_digits a n >? MAX_LONG_DIGITS) with false
    by (symmetry; rewrite Z.gtb_ltb; apply Z.ltb_ge; lia).
Qed.

Lemma py_shl_refused a n s :
  a <> 0 -> 2 ^ 66 <= n -> py_shl a n s = Raise OverflowError.
Proof.
  intros Ha Hn. unfold py_shl.
  replace (n <? 0) with false by (symmetry; apply Z.ltb_ge; lia).
  replace (a =? 0) with false by (symmetry; now apply Z.eqb_neq).
  pose proof (shl_digits_huge a n Hn).
  now replace (shl_digits a n >? MAX_LONG_DIGITS) with true
    by (symmetry; rewrite Z.gtb_ltb; apply Z.ltb_lt; lia).
Qed.

(** X18. Shifts do not truncate: for a register in range and a count
    [0 <= n <= MAXVAL], as an operand word gives it, [shli] by [n] leaves
    the value times [2^n], far outside the register range, and [shri] by
    [n] of that result restores the value. A negative count raises
    [ValueError] in all four shift methods, and a left shift of a nonzero
    value by [2^66] or more raises [OverflowError]; neither is a trap. *)
Theorem shifts_roundtrip_or_raise (s : CPU) (r1 r2 r3 n : Z) :
  wf s -> valid_reg r1 -> valid_reg r2 -> valid_reg r3 ->
  (0 <= n <= MAXVAL -> in_range (reg s r1) ->
     exists s1 s2,
       shli r1 n r2 s = Ok tt s1
       /\ reg s1 r2 = reg s r1 * 2 ^ n
       /\ shri r2 n r3 s1 = Ok tt s2
       /\ reg s2 r3 = reg s r1)
  /\ (n < 0 ->
     shli r1 n r2 s = Raise ValueError
     /\ shri r1 n r2 s = Raise ValueError
     /\ (reg s r2 = n ->
         shl r1 r2 r3 s = Raise ValueError
         /\ shr r1 r2 r3 s = Raise ValueError))
  /\ (2 ^ 66 <= n -> reg s r1 <> 0 ->
     shli r1 n r2 s = Raise OverflowError
     /\ (reg s r2 = n -> shl r1 r2 r3 s = Raise OverflowError)).
Proof.
  intros Hwf H1 H2 H3. split; [|split].
  - intros Hn Hv.
    assert (Hb : (n <? 0) = false) by (apply Z.ltb_ge; lia).
    eexists _, _.
    split.
    { unfold shli. cpu_run.
      rewrite (bind_ok _ _ _ _ _ (py_shl_fits _ n s Hv Hn)). cpu_run.
      reflexivity. }
    split; [reg_simp; apply Z.shiftl_mul_pow2; lia|].
    split; [unfold shri, py_shr; cpu_run; rewrite Hb; cpu_run; reflexivity|].
    reg_simp. rewrite Z.shiftr_shiftl_l by lia.
    now rewrite Z.sub_diag, Z.shiftl_0_r.
  - intros Hn.
    assert (Hb : (n <? 0) = true) by (apply Z.ltb_lt; lia).
    split; [unfold shli, py_shl; cpu_run; now rewrite Hb|].
    split; [unfold shri, py_shr; cpu_run; now rewrite Hb|].
    intros Hr. split.
    + unfold shl, py_shl. cpu_run. rewrite Hr. now rewrite Hb.
    + unfold shr, py_shr. cpu_run. rewrite Hr. now rewrite Hb.
  - intros Hn Hv. split.
    + unfold shli. cpu_run. apply bind_raise. now apply py_shl_refused.
    + intros Hr. unfold shl. cpu_run. rewrite Hr.
      apply bind_raise. now apply py_shl_refused.
Qed.

Lemma shifts_roundtrip_witness :
  exists s1 s2,
    shli 6 40 8 st_running = Ok tt s1
    /\ reg s1 8 = 10 * 2 ^ 40
    /\ shri 8 40 9 s1 = Ok tt s2
    /\ reg s2 9 = 10.
Proof.
  destruct (shifts_roundtrip_or_raise st_running 6 8 9 40) as [H _];
    [reflexivity | unfold valid_reg, REG_RESVD; lia..|].
  destruct H as (s1 & s2 & Hl & Hv1 & Hr & Hv2);
    [unfold MAXVAL; lia | vm_compute; split; discriminate|].
  exists s1, s2. split; [exact Hl|]. split; [exact Hv1|].
  split; [exact Hr | exact Hv2].
Defined.

(** ** The decoder *)

Lemma word_at_with_reg i v s a : word_at (with_reg i v s) a = word_at s a.
Proof. reflexivity. Qed.

Lemma fetch_word_in_memory s :
  wf s -> reg s REG_PC + 3 <= MAXVAL ->
  in_mem s (reg s REG_PC) -> in_mem s (reg s REG_PC + 3) ->
  fetch_word s =
    Ok (word_at s (reg s REG_PC))
       (with_reg REG_PC (reg s REG_PC + 4)
          (with_reg REG_RESVD (word_at s (reg s REG_PC)) s)).
Proof.
  intros Hwf Hle H0 H3.
  assert (H : wp fetch_word s
                (fun w s' =>
                   w = word_at s (reg s REG_PC)
                   /\ s' = with_reg REG_PC (reg s REG_PC + 4)
                             (with_reg REG_RESVD (word_at s (reg s REG_PC)) s))
                (fun _ => False)).
  { apply wp_fetch_word; [assumption | lia | | ].
    - intros _ _ _. now rewrite word_index_in_mem.
    - intros _ Hno. apply Hno. split; now apply in_mem_hit. }
  unfold wp in H. destruct (fetch_word s) as [w s'|e]; [|contradiction].
  destruct H as [-> ->]. reflexivity.
Qed.

Lemma fetch_in_memory (s : CPU) :
  wf s ->
  let pc := reg s REG_PC in
  pc + 15 <= MAXVAL -> in_mem s pc -> in_mem s (pc + 15) ->
  exists s1,
    fetch s = Ok (word_at s pc, word_at s (pc + 4),
                  word_at s (pc + 8), word_at s (pc + 12)) s1
    /\ reg s1 REG_PC = pc + 16
    /\ reg s1 REG_RESVD = word_at s (pc + 12)
    /\ (forall i, valid_reg i -> i <> REG_PC -> i <> REG_RESVD ->
          reg s1 i = reg s i)
    /\ memory s1 = memory s
    /\ intr_event s1 = intr_event s
    /\ intr_mask s1 = intr_mask s
    /\ intr_pending s1 = intr_pending s
    /\ wf s1.
Proof.
  intros Hwf pc Hmax H0 H15.
  assert (Hin : forall k, 0 <= k <= 15 -> in_mem s (pc + k))
    by (intros k Hk; unfold in_mem in *; lia).
  unfold fetch.
  rewrite (bind_ok _ _ _ _ _ (fetch_word_in_memory s Hwf ltac:(fold pc; lia)
             H0 (Hin 3 ltac:(lia)))).
  fold pc.
  set (s1 := with_reg REG_PC (pc + 4) (with_reg REG_RESVD (word_at s pc) s)).
  assert (Hwf1 : wf s1) by (subst s1; cpu_side).
  assert (Hpc1 : reg s1 REG_PC = pc + 4) by (subst s1; now reg_simp).
  erewrite bind_ok;
    [|apply fetch_word_in_memory; [assumption | rewrite Hpc1; lia | ..];
      rewrite Hpc1; subst s1; repeat apply in_mem_with_reg;
      [apply (Hin 4); lia
      | replace (pc + 4 + 3) with (pc + 7) by lia; apply Hin; lia]].
  rewrite Hpc1.
  set (s2 := with_reg REG_PC (pc + 4 + 4)
               (with_reg REG_RESVD (word_at s1 (pc + 4)) s1)).
  assert (Hwf2 : wf s2) by (subst s2; cpu_side).
  assert (Hpc2 : reg s2 REG_PC = pc + 8) by (subst s2; reg_simp; lia).
  erewrite bind_ok;
    [|apply fetch_word_in_memory; [assumption | rewrite Hpc2; lia | ..];
      rewrite Hpc2; subst s2 s1; repeat apply in_mem_with_reg;
      [apply (Hin 8); lia
      | replace (pc + 8 + 3) with (pc + 11) by lia; apply Hin; lia]].
  rewrite Hpc2.
  set (s3 := with_reg REG_PC (pc + 8 + 4)
               (with_reg REG_RESVD (word_at s2 (pc + 8)) s2)).
  assert (Hwf3 : wf s3) by (subst s3; cpu_side).
  assert (Hpc3 : reg s3 REG_PC = pc + 12) by (subst s3; reg_simp; lia).
  erewrite bind_ok;
    [|apply fetch_word_in_memory; [assumption | rewrite Hpc3; lia | ..];
      rewrite Hpc3; subst s3 s2 s1; repeat apply in_mem_with_reg;
      [apply (Hin 12); lia
      | replace (pc + 12 + 3) with (pc + 15) by lia; apply Hin; lia]].
  rewrite Hpc3.
  eexists. split; [reflexivity|].
  split; [reg_simp; lia|].
  split; [now reg_simp|].
  split.
  { intros i Hi Hne1 Hne2. subst s3 s2 s1. now reg_simp. }
  split; [reflexivity|].
  do 3 (split; [reflexivity|]).
  cpu_side.
Qed.

(** X19. When the sixteen bytes at [PC] lie in memory (and below
    [MAXVAL]), the four word reads return the four big-endian words at
    [PC], [PC + 4], [PC + 8], [PC + 12], advance [PC] by 16 and leave the
    last word, the third operand, in the scratch register [0x20]; no
    other register, no flag and no byte of memory changes. *)
Theorem fetch_reads_four_words (s : CPU) :
  wf s ->
  let pc := reg s REG_PC in
  pc + 15 <= MAXVAL -> in_mem s pc -> in_mem s (pc + 15) ->
  exists s1,
    fetch s = Ok (word_at s pc, word_at s (pc + 4),
                  word_at s (pc + 8), word_at s (pc + 12)) s1
    /\ reg s1 REG_PC = pc + 16
    /\ reg s1 REG_RESVD = word_at s (pc + 12)
    /\ (forall i, valid_reg i -> i <> REG_PC -> i <> REG_RESVD ->
          reg s1 i = reg s i)
    /\ memory s1 = memory s
    /\ intr_event s1 = intr_event s
    /\ intr_mask s1 = intr_mask s
    /\ intr_pending s1 = intr_pending s
    /\ wf s1.
Proof. exact (fetch_in_memory s). Qed.

Lemma fetch_reads_four_words_witness :
  exists s1,
    fetch st_nop = Ok (0, 1, 2, 3) s1
    /\ reg s1 REG_PC = 16 /\ reg s1 REG_RESVD = 3.
Proof.
  destruct (fetch_reads_four_words st_nop)
    as (s1 & Hf & Hpc & Hr & _);
    [ reflexivity
    | vm_compute; discriminate
    | vm_compute; split; [discriminate | reflexivity]
    | vm_compute; split; [discriminate | reflexivity]
    | ].
  exists s1. split; [exact Hf|]. split; [exact Hpc | exact Hr].
Defined.

(** X20. An instruction in memory whose opcode word is [0x35] or more
    takes the ILL trap (the double trap inside a handler) with [RET] = the
    address just past the instruction; memory and every register other
    than [PC], [RET], [TRAP] and the scratch register are unchanged. *)
Theorem decode_illegal_opcode_traps (s : CPU) :
  wf s ->
  let pc := reg s REG_PC in
  pc + 15 <= MAXVAL -> in_mem s pc -> in_mem s (pc + 15) ->
  Z.of_nat (length INSTRS) <= word_at s pc ->
  exists s',
    decode_next_instr s = Ok tt s'
    /\ reg s' REG_TRAP = 1
    /\ reg s' REG_RET = pc + 16
    /\ (reg s REG_TRAP = 0 -> reg s' REG_PC = TRAP_ILL)
    /\ (reg s REG_TRAP <> 0 -> reg s' REG_PC = TRAP_DTRAP)
    /\ memory s' = memory s
    /\ (forall i, valid_reg i ->
          i <> REG_PC -> i <> REG_RET -> i <> REG_TRAP -> i <> REG_RESVD ->
          reg s' i = reg s i).
Proof.
  intros Hwf pc Hmax H0 H15 Hop.
  destruct (fetch_in_memory s Hwf Hmax H0 H15)
    as (s1 & Hf & Hpc & Hr & Hfr & Hm & _ & _ & _ & Hwf1).
  fold pc in Hf, Hpc, Hr.
  exists (enter (trap_vector s1 TRAP_ILL) s1).
  split.
  { unfold decode_next_instr. rewrite (bind_ok _ _ _ _ _ Hf).
    unfold dispatch.
    replace (word_at s pc >=? Z.of_nat (length INSTRS)) with true
      by (symmetry; rewrite Z.geb_leb; apply Z.leb_le; lia).
    now apply trap_ok. }
  rewrite reg_enter_trap, reg_enter_ret, reg_enter_pc by assumption.
  assert (Ht : reg s1 REG_TRAP = reg s REG_TRAP)
    by (apply Hfr; [cpu_side | discriminate..]).
  split; [reflexivity|]. split; [exact Hpc|].
  split; [intros Hz; apply trap_vector_direct; [congruence | discriminate]|].
  split; [intros Hz; apply trap_vector_escalates;
          [congruence | discriminate]|].
  split; [exact Hm|].
  intros i Hi Hn1 Hn2 Hn3 Hn4.
  rewrite reg_enter_other by assumption. now apply Hfr.
Qed.

Lemma decode_illegal_opcode_witness :
  exists s',
    decode_next_instr st_bad_opcode = Ok tt s'
    /\ reg s' REG_PC = TRAP_ILL /\ reg s' REG_RET = 16
    /\ reg s' REG_TRAP = 1.
Proof.
  destruct (decode_illegal_opcode_traps st_bad_opcode)
    as (s' & Hd & Ht & Hr & Hpc & _);
    [ reflexivity
    | vm_compute; discriminate
    | vm_compute; split; [discriminate | reflexivity]
    | vm_compute; split; [discriminate | reflexivity]
    | vm_compute; discriminate
    | ].
  exists s'. split; [exact Hd|]. split; [now apply Hpc|].
  split; [exact Hr | exact Ht].
Defined.

(** X21. Whatever the opcode below [0x35], an operand whose declared
    kind is REG and whose value exceeds [0x20] makes [dispatch] take the
    ILL trap without calling the method: the state is that of the trap
    alone, with memory and all registers other than [PC], [RET] and
    [TRAP] untouched. *)
Theorem dispatch_refuses_register_above_0x20
    (s : CPU) (opcode op1 op2 op3 arg : Z)
    (t1 t2 t3 : arg_type) (fn : instr_fn) :
  wf s -> 0 <= opcode ->
  INSTRS !! Z.to_nat opcode = Some ((t1, t2, t3), fn) ->
  In (IA_REG, arg) (combine [t1; t2; t3] [op1; op2; op3]) ->
  arg > REG_RESVD ->
  dispatch opcode op1 op2 op3 s = trap TRAP_ILL s
  /\ exists s',
       trap TRAP_ILL s = Ok tt s'
       /\ reg s' REG_TRAP = 1
       /\ memory s' = memory s
       /\ (forall i, valid_reg i ->
             i <> REG_PC -> i <> REG_RET -> i <> REG_TRAP ->
             reg s' i = reg s i).
Proof.
  intros Hwf Hop Hentry Hin Hgt.
  assert (Hlt : (Z.to_nat opcode < length INSTRS)%nat)
    by (apply lookup_lt_is_Some; eauto).
  split.
  - unfold dispatch.
    replace (opcode >=? Z.of_nat (length INSTRS)) with false
      by (symmetry; rewrite Z.geb_leb; apply Z.leb_gt; lia).
    unfold bind, instrs_get, py_index.
    replace (0 <=? opcode) with true by (symmetry; apply Z.leb_le; lia).
    replace (opcode <? Z.of_nat (length INSTRS)) with true
      by (symmetry; apply Z.ltb_lt; lia).
    cbn [andb]. rewrite Hentry. cbn [pure].
    now rewrite (check_args_refuses _ [] arg Hin Hgt).
  - exists (enter (trap_vector s TRAP_ILL) s).
    split; [now apply trap_ok|].
    split; [now apply reg_enter_trap|]. split; [reflexivity|].
    intros i Hi H1 H2 H3. now apply reg_enter_other.
Qed.

Lemma dispatch_refuses_register_witness :
  dispatch 0xd 6 0x21 8 st_running = trap TRAP_ILL st_running.
Proof.
  apply (dispatch_refuses_register_above_0x20
           st_running 0xd 6 0x21 8 0x21 IA_REG IA_REG IA_REG F_add);
    [ reflexivity | lia | reflexivity
    | right; left; reflexivity | reflexivity ].
Defined.

(** X22. [nop] is not invisible: decoding a [nop] that lies in memory
    advances [PC] by 16 and leaves the instruction's third operand word,
    read and discarded, in the scratch register [0x20]; nothing else
    changes. *)
Theorem decode_nop_exposes_third_operand (s : CPU) :
  wf s ->
  let pc := reg s REG_PC in
  pc + 15 <= MAXVAL -> in_mem s pc -> in_mem s (pc + 15) ->
  word_at s pc = 0 ->
  exists s',
    decode_next_instr s = Ok tt s'
    /\ reg s' REG_PC = pc + 16
    /\ reg s' REG_RESVD = word_at s (pc + 12)
    /\ (forall i, valid_reg i -> i <> REG_PC -> i <> REG_RESVD ->
          reg s' i = reg s i)
    /\ memory s' = memory s
    /\ intr_mask s' = intr_mask s
    /\ intr_pending s' = intr_pending s.
Proof.
  intros Hwf pc Hmax H0 H15 Hop.
  destruct (fetch_in_memory s Hwf Hmax H0 H15)
    as (s1 & Hf & Hpc & Hr & Hfr & Hm & _ & Hmask & Hpend & _).
  fold pc in Hf, Hpc, Hr. rewrite Hop in Hf.
  exists s1. split.
  { unfold decode_next_instr. now rewrite (bind_ok _ _ _ _ _ Hf). }
  repeat split; assumption.
Qed.

Lemma decode_nop_witness :
  exists s',
    decode_next_instr st_nop = Ok tt s'
    /\ reg s' REG_PC = 16 /\ reg s' REG_RESVD = 3.
Proof.
  destruct (decode_nop_exposes_third_operand st_nop)
    as (s' & Hd & Hpc & Hr & _);
    [ reflexivity
    | vm_compute; discriminate
    | vm_compute; split; [discriminate | reflexivity]
    | vm_compute; split; [discriminate | reflexivity]
    | reflexivity
    | ].
  exists s'. split; [exact Hd|]. split; [exact Hpc | exact Hr].
Defined.

(** ** Memory across instructions *)

Lemma fetch_word_shape s :
  wf s -> mem_ok s ->
  wp fetch_word s
    (fun w s' =>
       wf s' /\ memory s' = memory s
       /\ (is_word (reg s REG_RESVD) \/ reg s REG_PC + 3 <= MAXVAL ->
           is_word w /\ is_word (reg s' REG_RESVD))
       /\ (reg s REG_PC + 3 > MAXVAL -> reg s' REG_PC + 3 <= MAXVAL))
    (fun _ => True).
Proof.
  intros Hwf Hmem.
  apply wp_fetch_word; [assumption | | | trivial].
  - intros Hgt.
    assert (Hv : trap_vector s TRAP_ILL = TRAP_ILL
                 \/ trap_vector s TRAP_ILL = TRAP_DTRAP)
      by (unfold trap_vector; destruct (_ || _); auto).
    split; [cpu_side|]. split; [reflexivity|]. split.
    + intros [Hw | Hle]; [|lia]. reg_simp_enter. auto.
    + intros _. reg_simp_enter.
      destruct Hv as [-> | ->]; unfold TRAP_ILL, TRAP_DTRAP, MAXVAL; lia.
  - intros Hle H0 H3.
    split; [cpu_side|]. split; [reflexivity|]. split; [|lia].
    intros _. reg_simp_enter. split; now apply is_word_word_index.
Qed.

Lemma mem_ok_of_memory s s' : memory s' = memory s -> mem_ok s -> mem_ok s'.
Proof. unfold mem_ok. now intros ->. Qed.

Lemma fetch_shape s :
  wf s -> mem_ok s ->
  wp fetch s
    (fun i s' =>
       let '(opcode, op1, op2, op3) := i in
       wf s' /\ memory s' = memory s
       /\ is_word op1 /\ is_word op2 /\ is_word op3)
    (fun _ => True).
Proof.
  intros Hwf Hmem. unfold fetch.
  apply wp_bind. eapply wp_conseq; [now apply fetch_word_shape|].
  intros opc s1 (Hwf1 & Hm1 & Hw1 & Hpc1). cbv beta.
  assert (Hmem1 : mem_ok s1) by now apply (mem_ok_of_memory s).
  assert (Hpre : is_word (reg s1 REG_RESVD) \/ reg s1 REG_PC + 3 <= MAXVAL).
  { destruct (Z_gt_dec (reg s REG_PC + 3) MAXVAL) as [Hgt | Hle].
    - right. now apply Hpc1.
    - left. apply Hw1. right. lia. }
  apply wp_bind. eapply wp_conseq; [now apply fetch_word_shape|].
  intros a1 s2 (Hwf2 & Hm2 & Hw2 & _). cbv beta.
  assert (Hmem2 : mem_ok s2) by now apply (mem_ok_of_memory s1).
  destruct (Hw2 Hpre) as [Ha1 Hr2].
  apply wp_bind. eapply wp_conseq; [now apply fetch_word_shape|].
  intros a2 s3 (Hwf3 & Hm3 & Hw3 & _). cbv beta.
  assert (Hmem3 : mem_ok s3) by now apply (mem_ok_of_memory s2).
  destruct (Hw3 (or_introl Hr2)) as [Ha2 Hr3].
  apply wp_bind. eapply wp_conseq; [now apply fetch_word_shape|].
  intros a3 s4 (Hwf4 & Hm4 & Hw4 & _). cbv beta.
  destruct (Hw4 (or_introl Hr3)) as [Ha3 Hr4].
  apply wp_pure. split; [assumption|]. split; [congruence|].
  split; [assumption|]. split; assumption.
Qed.

(** Length of the memory of a state built from updates *)
Ltac len_solve :=
  unfold enter;
  cbn [memory with_reg with_byte with_event with_mask with_pending];
  rewrite ?length_insert; reflexivity.

Lemma dispatch_memory_shape opc a1 a2 a3 s :
  wf s -> mem_ok s -> is_word a1 -> is_word a2 -> is_word a3 ->
  wp (dispatch opc a1 a2 a3) s
    (fun _ s' => wf s' /\ mem_ok s'
                 /\ length (memory s') = length (memory s))
    (fun _ => True).
Proof.
  intros Hwf Hmem H1 H2 H3.
  apply wp_dispatch;
    [ assumption
    | intros; split; [cpu_side | split; [range_solve | len_solve]]
    | trivial | ].
  intros t1 t2 t3 fn Hin Hsel.
  each_entry Hin; check_regs; cbn [call]; instr_run; try exact I;
    (split; [cpu_side | split; [range_solve | len_solve]]).
Qed.

Lemma dispatch_memory_unchanged opc a1 a2 a3 s :
  wf s -> is_word a1 -> is_word a2 -> is_word a3 ->
  (forall fn, selected_fn opc = Some fn -> is_store fn = false) ->
  wp (dispatch opc a1 a2 a3) s (fun _ s' => memory s' = memory s)
    (fun _ => True).
Proof.
  intros Hwf H1 H2 H3 Hns.
  apply wp_dispatch; [assumption | reflexivity | trivial |].
  intros t1 t2 t3 fn Hin Hsel. specialize (Hns fn Hsel).
  each_entry Hin; try discriminate Hns; check_regs; cbn [call];
    instr_run; try exact I; reflexivity.
Qed.

Lemma decode_memory_shape s s' :
  wf s -> mem_ok s -> decode_next_instr s = Ok tt s' ->
  wf s' /\ mem_ok s' /\ length (memory s') = length (memory s).
Proof.
  intros Hwf Hmem Hdec.
  unfold decode_next_instr in Hdec.
  apply bind_inv in Hdec as ([[[opc a1] a2] a3] & s1 & Hf & Hd).
  pose proof (wp_ok _ _ _ _ _ _ (fetch_shape s Hwf Hmem) Hf) as Hpost.
  cbv beta iota in Hpost.
  destruct Hpost as (Hwf1 & Hm1 & H1 & H2 & H3).
  pose proof (wp_ok _ _ _ _ _ _
                (dispatch_memory_shape opc a1 a2 a3 s1 Hwf1
                   (mem_ok_of_memory s s1 Hm1 Hmem) H1 H2 H3)
                Hd) as (Hwf' & Hmem' & Hlen).
  cbv beta in *.
  split; [assumption|]. split; [assumption|].
  now rewrite Hlen, Hm1.
Qed.

(** X23. However many instructions run, and whatever they are, the
    machine keeps its shape: from a CPU with 33 registers over a memory of
    bytes, every state [run] reaches still has 33 registers and a memory
    of the same length with every byte in [[0, 255]] (each store masks
    with [0xff]). *)
Theorem run_keeps_memory_shape (n : nat) (s s' : CPU) :
  wf s -> mem_ok s ->
  run n s = Ok tt s' ->
  wf s'
  /\ mem_ok s'
  /\ length (memory s') = length (memory s).
Proof.
  revert s. induction n as [|n IH]; intros s Hwf Hmem Hrun.
  - injection Hrun as <-. auto.
  - cbn [run] in Hrun.
    apply bind_inv in Hrun as ([] & s1 & Hdec & Hrest).
    destruct (decode_memory_shape s s1 Hwf Hmem Hdec) as (Hwf1 & Hmem1 & Hl1).
    destruct (IH s1 Hwf1 Hmem1 Hrest) as (Hwf' & Hmem' & Hl').
    split; [assumption|]. split; [assumption|]. congruence.
Qed.

(** X24. Only the six store methods write memory: a decoded instruction
    that returns and selects any other method, or none, leaves every
    byte of memory as it was. *)
Theorem decode_without_store_keeps_memory
    (s s1 s' : CPU) (opcode op1 op2 op3 : Z) :
  wf s -> mem_ok s ->
  fetch s = Ok (opcode, op1, op2, op3) s1 ->
  dispatch opcode op1 op2 op3 s1 = Ok tt s' ->
  (forall fn, selected_fn opcode = Some fn -> is_store fn = false) ->
  memory s' = memory s.
Proof.
  intros Hwf Hmem Hf Hd Hns.
  pose proof (wp_ok _ _ _ _ _ _ (fetch_shape s Hwf Hmem) Hf) as Hpost.
  cbv beta iota in Hpost.
  destruct Hpost as (Hwf1 & Hm1 & H1 & H2 & H3).
  pose proof (wp_ok _ _ _ _ _ _
                (dispatch_memory_unchanged opcode op1 op2 op3 s1
                   Hwf1 H1 H2 H3 Hns) Hd) as Hm'.
  cbv beta in *. congruence.
Qed.

(** ** A fresh CPU *)

Lemma mem_ok_bytes mem :
  Forall is_byte mem -> Z.of_nat (length mem) <= MAXVAL ->
  forall regs e m p, mem_ok (mkCPU mem regs e m p).
Proof. intros Hb Hl regs e m p. split; assumption. Qed.

(** X25. [CPU(memory)] starts well formed: 33 registers, all zero (so in
    range, with [CARRY] and [TRAP] clear and [PC = 0]), interrupts neither
    masked nor pending, the event clear; over a memory of fewer than
    [2^32] bytes it satisfies the invariant the instructions preserve. *)
Theorem init_is_well_formed (mem : list Z) :
  Forall is_byte mem -> Z.of_nat (length mem) <= MAXVAL ->
  cpu_inv (init mem)
  /\ (forall i, valid_reg i -> reg (init mem) i = 0)
  /\ carry01 (init mem) /\ trap01 (init mem)
  /\ memory (init mem) = mem
  /\ intr_mask (init mem) = false
  /\ intr_pending (init mem) = false
  /\ intr_event (init mem) = false.
Proof.
  intros Hb Hl.
  assert (Hz : forall i, reg (init mem) i = 0).
  { intros i. unfold reg, init. cbn [registers].
    rewrite nth_lookup.
    destruct (replicate (Z.to_nat (REG_RESVD + 1)) 0 !! Z.to_nat i)
      as [v|] eqn:E; [|reflexivity].
    apply lookup_replicate in E as [-> _]. reflexivity. }
  split.
  { split; [reflexivity|]. split; [|now apply mem_ok_bytes].
    unfold regs_ok, init. cbn [registers].
    apply Forall_replicate. unfold in_range, MINVAL, MAXVAL. lia. }
  split; [intros i _; apply Hz|].
  split; [left; apply Hz|]. split; [left; apply Hz|].
  repeat split.
Qed.

Lemma is_byte_encode o a b c : Forall is_byte (encode o a b c).
Proof.
  unfold encode, word_bytes.
  repeat (apply Forall_app_2 || apply Forall_cons_2 || apply Forall_nil_2);
    apply is_byte_land_ff.
Qed.

Lemma run_keeps_memory_shape_witness :
  exists s',
    run 1 st_savebi = Ok tt s'
    /\ wf s' /\ mem_ok s'
    /\ length (memory s') = 16%nat /\ byte_at s' 8 = 0xff.
Proof.
  assert (Hmem : mem_ok st_savebi).
  { apply mem_ok_bytes; [apply is_byte_encode | vm_compute; discriminate]. }
  eassert (Hrun : run 1 st_savebi = Ok tt _) by (vm_compute; reflexivity).
  destruct (run_keeps_memory_shape 1 st_savebi _ eq_refl Hmem Hrun)
    as (Hwf & Hm & Hl).
  eexists. split; [exact Hrun|]. split; [exact Hwf|].
  split; [exact Hm|]. split; [exact Hl | reflexivity].
Defined.

Lemma decode_without_store_witness :
  exists s',
    decode_next_instr st_add = Ok tt s'
    /\ memory s' = memory st_add.
Proof.
  assert (Hmem : mem_ok st_add).
  { apply mem_ok_bytes; [apply is_byte_encode | vm_compute; discriminate]. }
  eassert (Hfetch : fetch st_add = Ok (0xd, 6, 7, 8) _)
    by (vm_compute; reflexivity).
  match type of Hfetch with
  | _ = Ok _ ?s1 =>
      eassert (Hdisp : dispatch 0xd 6 7 8 s1 = Ok tt _)
        by (vm_compute; reflexivity)
  end.
  eexists. split.
  - unfold decode_next_instr. rewrite (bind_ok _ _ _ _ _ Hfetch).
    exact Hdisp.
  - apply (decode_without_store_keeps_memory st_add _ _ _ _ _ _
             eq_refl Hmem Hfetch Hdisp).
    intros fn [= <-]. reflexivity.
Defined.

Lemma init_is_well_formed_witness :
  cpu_inv (init [1; 2; 3]) /\ reg (init [1; 2; 3]) REG_PC = 0.
Proof.
  destruct (init_is_well_formed [1; 2; 3]) as (Hinv & Hz & _).
  - repeat (apply Forall_cons_2; [unfold is_byte; lia|]). apply Forall_nil_2.
  - vm_compute. discriminate.
  - split; [exact Hinv|]. apply Hz. unfold valid_reg, REG_RESVD, REG_PC. lia.
Defined.

(** ** What can abort a dispatch *)

(** A leaf that ends with an exception, whose cause the method
    selected accounts for. *)
Ltac cause_solve Hsel :=
  try exact I;
  bool_hyps;
  first
    [ overflow_solve
    | rewrite Hsel; cbn [abort_cause];
      first [ reflexivity
            | now left
            | now right
            | right; eexists; split; [reflexivity | reflexivity] ]
    | exfalso; unfold is_word in *; lia ].

(** X26. A dispatch of decoded operands on a CPU with its 33 registers,
    each in range, ends with an exception only for a reason the selected
    method accounts for: [IndexError] from a method that reads or writes
    memory (or a negative opcode), [ValueError] from [shl] or [shr] (never
    from the immediate shifts, whose count is an operand word),
    [SystemExit] from [halt], a blocked thread from [wait]; never
    [TypeError], the table's operand kinds matching every method's
    parameters, never [RecursionError], and never [OverflowError], a
    value in range shifted by a count in range being far from that
    limit. *)
Theorem dispatch_aborts_only_for_cause
    (s : CPU) (opcode op1 op2 op3 : Z) (e : exn) :
  wf s -> regs_ok s -> is_word op1 -> is_word op2 -> is_word op3 ->
  dispatch opcode op1 op2 op3 s = Raise e ->
  abort_cause (selected_fn opcode) e
  /\ e <> TypeError /\ e <> RecursionError /\ e <> OverflowError.
Proof.
  intros Hwf Hregs H1 H2 H3 Hd.
  assert (Hc : abort_cause (selected_fn opcode) e).
  { assert (Hwp : wp (dispatch opcode op1 op2 op3) s (fun _ _ => True)
                    (abort_cause (selected_fn opcode))).
    { apply wp_dispatch; [assumption | trivial | |].
      - intros Hnone _. rewrite Hnone. now left.
      - intros t1 t2 t3 fn Hin Hsel.
        each_entry Hin; check_regs; cbn [call]; instr_run;
          try solve [cause_solve Hsel]. }
    unfold wp in Hwp. now rewrite Hd in Hwp. }
  split; [exact Hc|].
  split; [|split]; intros ->; exact Hc.
Qed.

Lemma dispatch_aborts_only_for_cause_witness :
  abort_cause (selected_fn 0xa) IndexError.
Proof.
  eassert (Hfetch : fetch st_loadb_far = Ok (0xa, 6, 0x100, 0) _)
    by (vm_compute; reflexivity).
  match type of Hfetch with
  | _ = Ok _ ?s1 =>
      assert (Hd : dispatch 0xa 6 0x100 0 s1 = Raise IndexError)
        by (vm_compute; reflexivity);
      assert (Hregs : regs_ok s1)
        by (unfold regs_ok; vm_compute registers;
            repeat (apply Forall_cons_2;
                    [unfold in_range, MINVAL, MAXVAL; lia|]);
            apply Forall_nil_2);
      destruct (dispatch_aborts_only_for_cause s1 0xa 6 0x100 0 IndexError)
        as [Hc _];
      [ reflexivity | exact Hregs | unfold is_word; lia | unfold is_word; lia
      | unfold is_word; lia | exact Hd | exact Hc ]
  end.
Defined.

(** ** The argument list *)

(** X27. When no register operand exceeds [0x20], the type-checking
    loop passes on exactly the operands whose kind is not [IA_NONE], in
    their order, after whatever the list already held; a [NONE] operand
    is never passed, whatever its value. *)
Theorem check_args_collects_operands (l : list (arg_type * Z)) :
  forall acc,
    (forall arg, In (IA_REG, arg) l -> arg <= REG_RESVD) ->
    check_args l acc = Some (acc ++ passed_operands l).
Proof.
  induction l as [|[ty a] l IH]; intros acc Hall.
  - cbn. now rewrite app_nil_r.
  - assert (Hl : forall arg, In (IA_REG, arg) l -> arg <= REG_RESVD)
      by (intros arg Hin; apply Hall; now right).
    unfold passed_operands in *. cbn [check_args List.filter fst].
    destruct ty; cbn [map snd].
    + now apply IH.
    + rewrite IH by assumption. now rewrite <- app_assoc.
    + rewrite IH by assumption. now rewrite <- app_assoc.
    + replace (a >? REG_RESVD) with false
        by (symmetry; rewrite Z.gtb_ltb; apply Z.ltb_ge; apply Hall;
            now left).
      rewrite IH by assumption. now rewrite <- app_assoc.
Qed.

Lemma check_args_collects_operands_witness :
  check_args [(IA_REG, 6); (IA_NONE, 99); (IA_ADDR, 0x100)] []
  = Some [6; 0x100].
Proof.
  apply (check_args_collects_operands
           [(IA_REG, 6); (IA_NONE, 99); (IA_ADDR, 0x100)] []).
  intros arg [[= <-] | [[=] | [[=] | []]]]. unfold REG_RESVD. lia.
Defined.
